(** * hexag00n: the Hexagon behavior parser (hexagondisasm/reil/behavior_parser.py)

    A shallow embedding of the PLY lexer and LALR(1) parser that
    [HexagonBehaviorParser] declares, of the [HexagonTranslationBuilder]
    its grammar actions build, and of the REIL instructions they emit.

    Conventions of the embedding:
    - the module is written for Python 2.7 and for Python 3 alike (it imports
      [__future__] and [builtins]). Two library behaviours it relies on are
      not the same on the two: the class [\w] of [re], and the formatting of
      an object with the specification [s]. An interpreter [py] is given by
      these two behaviours, and every definition that depends on one of
      them takes it as its first argument (see [word] and [format_field]);
    - a character is a code point below 256, and a string a sequence of
      them;
    - the lexer rules are regular expressions run by a backtracking matcher
      with Python's [re] semantics (first alternative, greedy repetition);
    - PLY tries the rules given as functions first, in the order of their
      definition, then the rules given as strings, longest pattern first;
    - the parser is PLY's table-driven LALR(1) engine; it asks the lexer
      for one token at a time;
    - the process-wide [_ir_name_generator] is a counter threaded through
      every action ([M]); Python exceptions are values of [exn];
    - a builder is mutated in place in the source and returned anew here:
      every REG reduction creates its own builder, so no two entries of the
      parser's stack share one;
    - [print_debug] only writes to the log and is left out, but the message
      it is handed is built first, with [str.format]: where building it can
      raise, the call of [format] is part of the action. *)

From Stdlib Require Import String Ascii List Arith NArith Bool Lia DecimalString.
From Stdlib Require Import DecimalNat FinFun.
Import ListNotations.
Open Scope string_scope.

(** ** Python-side data *)

Inductive exn :=
| UnknownBehaviorException (msg : string)
| UnexpectedException
| AttributeError
| TypeError
| ValueError
| IndexError
| KeyError.

(** The interpreter that runs the module, as far as the module can tell:
    what [\w] matches in a pattern compiled without [re.UNICODE], and what
    [object.__format__] does with the format specification [s]. On Python
    2.7 [\w] is a letter or a digit of ASCII or the underscore, and an
    object is formatted as its [str]; on Python 3 [\w] is any word
    character of Unicode, and [object.__format__] raises [TypeError] when
    the specification is not empty. *)
Inductive word_class := AsciiWords | UnicodeWords.
Inductive object_format := FormatsStr | RefusesSpec.

Record python := { words : word_class; objects : object_format }.

Definition Python2 : python := {| words := AsciiWords; objects := FormatsStr |}.
Definition Python3 : python := {| words := UnicodeWords; objects := RefusesSpec |}.

(** [hexagon_size = 32] *)
Definition hexagon_size : nat := 32.

(** Modelled from the spec: the operands of [barf.core.reil] (the package is
    not part of the repository). An operand is a register, an immediate or a
    temporary, each carrying its bit width. *)
Inductive ReilOperand :=
| ReilRegisterOperand (name : string) (size : nat)
| ReilImmediateOperand (imm : N) (size : nat)
| ReilTemporaryOperand (name : string) (size : nat).

Definition operand_size (o : ReilOperand) : nat :=
  match o with
  | ReilRegisterOperand _ s | ReilImmediateOperand _ s
  | ReilTemporaryOperand _ s => s
  end.

Inductive ReilMnemonic := ADD | STR.

(** Python is dynamically typed: [set_value] stores whatever it is handed,
    and [gen_str]/[gen_add] take whatever [get_value] returns. A value is
    therefore an operand or a builder object, and the three types are
    mutually recursive.

    Modelled from the spec: the instruction shape of [barf.core.reil]
    (opcode, source operands, destination operand). *)
Inductive Value :=
| VOperand (o : ReilOperand)
| VBuilder (tb : HexagonTranslationBuilder)
with HexagonTranslationBuilder :=
| mkTB (instrs : list ReilInstruction) (val : option Value)
with ReilInstruction :=
| mkInstr (mnemonic : ReilMnemonic) (sources : list Value) (dest : Value).

Definition _instructions (tb : HexagonTranslationBuilder) : list ReilInstruction :=
  match tb with mkTB l _ => l end.

Definition _value (tb : HexagonTranslationBuilder) : option Value :=
  match tb with mkTB _ v => v end.

(** The objects that travel on the parser's value stack and out of
    [parse]: token values (strings, integers), builders, and the list of
    instructions that the docstring of [Parser.parse] announces. *)
Inductive pyobj :=
| PyStr (s : string)
| PyInt (n : N)
| PyBuilder (tb : HexagonTranslationBuilder)
| PyList (l : list ReilInstruction)
| PyNone.

(** [str(n)] of a non-negative integer. *)
Definition str_of_nat (n : nat) : string := NilZero.string_of_uint (Nat.to_uint n).
Definition str_of_N (n : N) : string := NilZero.string_of_uint (N.to_uint n).

(** [str(p.value)] *)
Definition py_str (v : pyobj) : string :=
  match v with
  | PyStr s => s
  | PyInt n => str_of_N n
  | PyBuilder _ => "<HexagonTranslationBuilder object>"
  | PyList _ => "[...]"
  | PyNone => "None"
  end.

(** ** Regular expressions of the lexer rules *)

Module Re.

(** A character class is a list of inclusive ranges. *)
Definition charclass := list (ascii * ascii).

Definition in_range (c : ascii) (r : ascii * ascii) : bool :=
  Nat.leb (nat_of_ascii (fst r)) (nat_of_ascii c) &&
  Nat.leb (nat_of_ascii c) (nat_of_ascii (snd r)).

Definition in_class (p : charclass) (c : ascii) : bool := existsb (in_range c) p.

Definition one (c : ascii) : ascii * ascii := (c, c).

Inductive regex :=
| Lit (s : string)                                (* a literal string *)
| Cls (p : charclass)                             (* [...] *)
| Seq (r1 r2 : regex)
| Opt (r : regex)                                 (* (r)? *)
| Rep (p : charclass) (lo : nat) (hi : option nat). (* [...]{lo,hi}, [...]+ *)

Fixpoint strip_prefix (l s : string) : option string :=
  match l with
  | EmptyString => Some s
  | String a l' =>
      match s with
      | String b s' => if Ascii.eqb a b then strip_prefix l' s' else None
      | EmptyString => None
      end
  end.

Definition may_take (hi : option nat) : bool :=
  match hi with Some 0 => false | _ => true end.

Definition dec_hi (hi : option nat) : option nat :=
  match hi with Some n => Some (pred n) | None => None end.

Section Matcher.
Context {A : Type}.

(** Greedy bounded repetition of a class: the longest run is tried
    first, shorter runs on backtracking. *)
Fixpoint rep_match (p : charclass) (lo : nat) (hi : option nat) (s : string)
         (k : string -> option A) : option A :=
  let stop := match lo with 0 => k s | S _ => None end in
  match s with
  | String c s' =>
      if in_class p c && may_take hi then
        match rep_match p (pred lo) (dec_hi hi) s' k with
        | Some x => Some x
        | None => stop
        end
      else stop
  | EmptyString => stop
  end.

(** [re_match r s k]: match [r] at the start of [s] and hand the rest
    to the continuation [k]; [None] makes the matcher backtrack. *)
Fixpoint re_match (r : regex) (s : string) (k : string -> option A) : option A :=
  match r with
  | Lit l => match strip_prefix l s with Some s' => k s' | None => None end
  | Cls p =>
      match s with
      | String c s' => if in_class p c then k s' else None
      | EmptyString => None
      end
  | Seq r1 r2 => re_match r1 s (fun s' => re_match r2 s' k)
  | Opt r1 =>
      match re_match r1 s k with
      | Some x => Some x
      | None => k s
      end
  | Rep p lo hi => rep_match p lo hi s k
  end.
End Matcher.

(** [m = re.match(r, s)]: the rest of the input after [m.group()]. *)
Definition match_rest (r : regex) (s : string) : option string :=
  re_match r s (fun rest => Some rest).

(** The characters a pattern mentions. *)
Fixpoint mentions (r : regex) (c : ascii) : bool :=
  match r with
  | Lit l => existsb (Ascii.eqb c) (list_ascii_of_string l)
  | Cls p => in_class p c
  | Seq r1 r2 => mentions r1 c || mentions r2 c
  | Opt r1 => mentions r1 c
  | Rep p _ _ => in_class p c
  end.

(** [pattern] of a string rule: a backslash escapes the next character. *)
Fixpoint unescape (p : string) : string :=
  match p with
  | String "\" (String c p') => String c (unescape p')
  | String c p' => String c (unescape p')
  | EmptyString => EmptyString
  end.

(** [\w]. The lexer is built without the flag [re.UNICODE]: on Python 2.7
    the class is [[a-zA-Z0-9_]]; on Python 3 the patterns are [str] patterns
    and the class holds every character that is alphanumeric for
    [str.isalnum], which below 256 adds the letters, digits and fractions of
    Latin-1. *)
Definition word_ascii : charclass :=
  [("a", "z"); ("A", "Z"); ("0", "9"); one "_"]%char.
Definition word_latin1 : charclass :=
  [one "170"; ("178", "179"); one "181"; ("185", "186"); ("188", "190");
   ("192", "214"); ("216", "246"); ("248", "255")]%char.
Definition word (py : python) : charclass :=
  match words py with
  | AsciiWords => word_ascii
  | UnicodeWords => (word_ascii ++ word_latin1)%list
  end.
Definition hexdigit : charclass :=
  [("a", "f"); ("A", "F"); ("0", "9")]%char.

End Re.

(** ** The lexer rules of [HexagonBehaviorParser] *)

(** The seventeen operators of [p_expression_binop]. *)
Inductive binop :=
| PLUS | MINUS | TIMES | DIVIDE | OR | AND | NOT | XOR | LOG_NOT
| LSHIFT | RSHIFT | LT | GT | LE | GE | EQ | NE.

(** The ten operators of [p_statementassign]. *)
Inductive assignop :=
| EQUALS | TIMESEQUAL | DIVEQUAL | PLUSEQUAL | MINUSEQUAL
| LSHIFTEQUAL | RSHIFTEQUAL | ANDEQUAL | OREQUAL | XOREQUAL.

(** The token types that have a lexer rule. The other names of [tokens]
    (NAME, ID, MOD, LBRACKET, IF, ...) have neither a rule nor a production
    and never occur. *)
Inductive token_type :=
| REG | IMM | MEM_ACCESS | REG_EA
| BINOP (o : binop)
| ASSIGNOP (a : assignop)
| PLUSPLUS | MINUSMINUS | CONDOP
| LPAREN | RPAREN | LBRACE | RBRACE | COMMA | PERIOD | SEMI | COLON.

Coercion BINOP : binop >-> token_type.
Coercion ASSIGNOP : assignop >-> token_type.

(** PLY's [LexToken]: [t.type] and [t.value]. *)
Record LexToken := mkTok { tok_type : token_type; tok_value : pyobj }.

(** The rules given as strings, in the order of [dir()] (by name), each
    with its pattern as written in the source. *)
Definition string_rules : list (token_type * string) :=
  [ (BINOP AND, "&"); (ASSIGNOP ANDEQUAL, "&="); (COLON, ":"); (COMMA, ",");
    (CONDOP, "\?"); (ASSIGNOP DIVEQUAL, "/="); (BINOP DIVIDE, "/");
    (BINOP EQ, "=="); (ASSIGNOP EQUALS, "="); (BINOP GE, ">="); (BINOP GT, ">");
    (LBRACE, "\{"); (BINOP LE, "<="); (BINOP LOG_NOT, "~"); (LPAREN, "\(");
    (BINOP LSHIFT, "<<"); (ASSIGNOP LSHIFTEQUAL, "<<="); (BINOP LT, "<");
    (BINOP MINUS, "-"); (ASSIGNOP MINUSEQUAL, "-="); (MINUSMINUS, "--");
    (BINOP NE, "!="); (BINOP NOT, "!"); (BINOP OR, "\|"); (ASSIGNOP OREQUAL, "\|=");
    (PERIOD, "\."); (BINOP PLUS, "\+"); (ASSIGNOP PLUSEQUAL, "\+=");
    (PLUSPLUS, "\+\+"); (RBRACE, "\}"); (RPAREN, "\)"); (BINOP RSHIFT, ">>");
    (ASSIGNOP RSHIFTEQUAL, ">>="); (SEMI, ";"); (BINOP TIMES, "\*");
    (ASSIGNOP TIMESEQUAL, "\*="); (BINOP XOR, "\^"); (ASSIGNOP XOREQUAL, "\^=") ].

(** PLY sorts the string rules by decreasing pattern length
    ([strsym.sort(key=lambda x: len(x[1]), reverse=True)]); the sort is
    stable. *)
Fixpoint insert_by_length (x : token_type * string) (l : list (token_type * string))
  : list (token_type * string) :=
  match l with
  | [] => [x]
  | y :: l' =>
      if Nat.leb (String.length (snd y)) (String.length (snd x))
      then x :: y :: l'
      else y :: insert_by_length x l'
  end.

Definition sort_by_length (l : list (token_type * string)) : list (token_type * string) :=
  fold_right insert_by_length [] l.

Inductive lexrule :=
| t_newline | t_MEM_ACCESS | t_REG_EA | t_REG | t_IMM
| t_string (ty : token_type).

Import Re.

(** The pattern of [t_IMM]: [(0x)?[a-fA-F0-9]+]. *)
Definition imm_pattern : regex := Seq (Opt (Lit "0x")) (Rep hexdigit 1 None).

(** The rules given as functions come first, in the order of their
    definition; then the sorted string rules. The master pattern is the
    alternation of all of them, and Python takes the first alternative
    that matches. *)
Definition master (py : python) : list (lexrule * regex) :=
  [ (t_newline,    Rep [one "010"%char] 1 None);                       (* \n+ *)
    (t_MEM_ACCESS, Lit "*EA");                                         (* \*EA *)
    (t_REG_EA,     Lit "EA");                                          (* EA *)
    (t_REG,        Seq (Cls [one "R"; one "P"; one "N"; one "M"; one "C"]%char)
                       (Seq (Rep (word py) 1 (Some 2)) (Opt (Lit ".new")))); (* [RPNMC]\w{1,2}(\.new)? *)
    (t_IMM,        imm_pattern) ]                                      (* (0x)?[a-fA-F0-9]+ *)
  ++ map (fun r => (t_string (fst r), Lit (unescape (snd r)))) (sort_by_length string_rules).

(** [t_ignore = ' \t\x0c'] *)
Definition t_ignore : list ascii := [" "; "009"; "012"]%char.

Definition is_ignored (c : ascii) : bool := existsb (Ascii.eqb c) t_ignore.

(** The first rule of the master pattern that matches at the start of
    [s], with [m.group()] and the rest of the input. *)
Fixpoint first_match (rules : list (lexrule * regex)) (s : string)
  : option (lexrule * string * string) :=
  match rules with
  | [] => None
  | (r, re) :: rules' =>
      match match_rest re s with
      | Some rest => Some (r, substring 0 (String.length s - String.length rest) s, rest)
      | None => first_match rules' s
      end
  end.

(** [t.value.count("\n")] *)
Fixpoint count_newlines (s : string) : nat :=
  match s with
  | EmptyString => 0
  | String c s' => (if Ascii.eqb c "010" then 1 else 0) + count_newlines s'
  end.

(** [re.sub('0x', '', s)]: every occurrence of "0x" is deleted, left to right. *)
Fixpoint re_sub_0x (s : string) : string :=
  match s with
  | EmptyString => EmptyString
  | String c s' =>
      match s' with
      | EmptyString => String c EmptyString
      | String c' s'' =>
          if (Ascii.eqb c "0" && Ascii.eqb c' "x")%bool then re_sub_0x s''
          else String c (re_sub_0x s')
      end
  end.

Definition hex_digit (c : ascii) : option N :=
  let n := N_of_ascii c in
  if (N.leb 48 n && N.leb n 57)%bool then Some (n - 48)%N
  else if (N.leb 97 n && N.leb n 102)%bool then Some (n - 87)%N
  else if (N.leb 65 n && N.leb n 70)%bool then Some (n - 55)%N
  else None.

Fixpoint int16_digits (acc : N) (s : string) : option N :=
  match s with
  | EmptyString => Some acc
  | String c s' =>
      match hex_digit c with
      | Some d => int16_digits (16 * acc + d)%N s'
      | None => None
      end
  end.

(** [int(s, 16)] on a string of digits; [None] is Python's [ValueError]. *)
Definition int_base16 (s : string) : option N :=
  match s with
  | EmptyString => None
  | _ => int16_digits 0%N s
  end.

(** The body of each rule: the new line number, and the token the rule
    returns ([None] when it returns nothing) or the exception it raises. *)
Definition rule_action (r : lexrule) (lexeme : string) (lineno : nat)
  : nat * (exn + option LexToken) :=
  match r with
  | t_newline => (lineno + count_newlines lexeme, inr None)
  | t_MEM_ACCESS => (lineno, inr (Some (mkTok MEM_ACCESS (PyStr "EA"))))
  | t_REG_EA => (lineno, inr (Some (mkTok REG_EA (PyStr lexeme))))
  | t_REG => (lineno, inr (Some (mkTok REG (PyStr lexeme))))
  | t_IMM =>
      match int_base16 (re_sub_0x lexeme) with
      | Some n => (lineno, inr (Some (mkTok IMM (PyInt n))))
      | None => (lineno, inl ValueError)
      end
  | t_string ty => (lineno, inr (Some (mkTok ty (PyStr lexeme))))
  end.

(** [t_error]: [t.value] is the rest of the input from the offending
    character on. *)
Definition t_error (rest : string) : exn :=
  UnknownBehaviorException
    ("Illegal character " ++ substring 0 1 rest ++ " in: " ++ rest).

(** How a token stream ends: the end of the input, an exception raised by a
    rule or by [t_error], or the model's fuel. *)
Inductive lex_end := LexEOF | LexRaise (e : exn) | LexFuel.

(** The tokens [lexer.token()] hands out one after the other, up to the
    end of the input or to the first exception. The parser pulls them one
    at a time, so an exception is only raised once every token before it
    has been consumed. *)
Fixpoint token_stream (py : python) (fuel lineno : nat) (s : string)
  : list LexToken * lex_end :=
  match fuel with
  | 0 => ([], LexFuel)
  | S fuel' =>
      match s with
      | EmptyString => ([], LexEOF)
      | String c s' =>
          if is_ignored c then token_stream py fuel' lineno s'
          else
            match first_match (master py) s with
            | Some (r, lexeme, rest) =>
                match rule_action r lexeme lineno with
                | (lineno', inr (Some tok)) =>
                    let (toks, e) := token_stream py fuel' lineno' rest in (tok :: toks, e)
                | (lineno', inr None) => token_stream py fuel' lineno' rest
                | (_, inl e) => ([], LexRaise e)
                end
            | None => ([], LexRaise (t_error s))
            end
      end
  end.

(** Every step consumes a character, so the length of the input bounds
    the number of steps. *)
Definition tokenize (py : python) (s : string) : list LexToken * lex_end :=
  token_stream py (S (String.length s)) 1 s.


(** ** The translation builder *)

Inductive result (A : Type) :=
| Ok (a : A)
| Raise (e : exn).
Arguments Ok {A} a.
Arguments Raise {A} e.

(** A computation reads and updates the counter of the process-wide
    [_ir_name_generator] and returns a value or raises. *)
Definition M (A : Type) : Type := nat -> nat * result A.

Definition ret {A} (a : A) : M A := fun g => (g, Ok a).
Definition raise {A} (e : exn) : M A := fun g => (g, Raise e).
Definition bind {A B} (c : M A) (f : A -> M B) : M B :=
  fun g => match c g with
           | (g', Ok a) => f a g'
           | (g', Raise e) => (g', Raise e)
           end.

Notation "x <- c ;; k" := (bind c (fun x => k))
  (at level 61, c at next level, right associativity).

(** Modelled from the spec: [VariableNamer.get_next] of [barf.utils.utils],
    as the Temporary Allocator of the spec (one counter, incremented once per
    request; the name is the base name, the separator and the counter).
    [_ir_name_generator = VariableNamer("t", separator="")]. *)
Definition get_next : M string :=
  fun g => (S g, Ok ("t" ++ "" ++ str_of_nat g)).

(** [HexagonTranslationBuilder(_ir_name_generator)]: no instruction,
    [self._value = None]. *)
Definition new_builder : HexagonTranslationBuilder := mkTB [] None.

Definition get_instructions (self : HexagonTranslationBuilder) : list ReilInstruction :=
  _instructions self.

(** [self._instructions.extend(tb._instructions)] *)
Definition extend_instructions (self tb : HexagonTranslationBuilder)
  : HexagonTranslationBuilder :=
  mkTB (_instructions self ++ _instructions tb) (_value self).

Definition set_value (self : HexagonTranslationBuilder) (value : Value)
  : HexagonTranslationBuilder :=
  mkTB (_instructions self) (Some value).

Definition get_value (self : HexagonTranslationBuilder) : M Value :=
  match _value self with
  | None => raise UnexpectedException
  | Some v => ret v
  end.

(** Modelled from the spec: [TranslationBuilder.add] and
    [TranslationBuilder.temporal] of [barf.arch.translator]: [add] appends one
    instruction, [temporal] returns a fresh temporary of the given width and
    appends nothing. *)
Definition add (self : HexagonTranslationBuilder) (instr : ReilInstruction)
  : HexagonTranslationBuilder :=
  mkTB (_instructions self ++ [instr]) (_value self).

Definition temporal (size : nat) : M Value :=
  name <- get_next ;;
  ret (VOperand (ReilTemporaryOperand name size)).

(** Modelled from the spec: [ReilBuilder.gen_str] and [ReilBuilder.gen_add]
    of [barf.core.reil]: STORE moves a source into a destination, ADD
    combines two sources into a destination. *)
Definition gen_str (src dst : Value) : ReilInstruction := mkInstr STR [src] dst.
Definition gen_add (src1 src2 dst : Value) : ReilInstruction := mkInstr ADD [src1; src2] dst.

(** ** The grammar actions *)

(** What [format] sees of an argument: a [str], an [int], or an object
    whose class has no [__format__] of its own. The builders of this module
    are such objects, and so are a list and [None]; the operands of BARF are
    taken to be such objects too. *)
Inductive format_arg := F_str | F_int | F_object.

Definition format_arg_of (p : pyobj) : format_arg :=
  match p with
  | PyStr _ => F_str
  | PyInt _ => F_int
  | PyBuilder _ | PyList _ | PyNone => F_object
  end.

(** What [get_value] returns is an operand or a builder. *)
Definition format_arg_of_value (v : Value) : format_arg := F_object.

(** One replacement field [{:s}]. A [str] is taken as it is; an [int]
    refuses the specification [s] ([ValueError]). For any other object
    the specification reaches [object.__format__]: Python 2.7 formats
    [str(x)] with it, Python 3 raises [TypeError] ("unsupported format
    string passed to ...__format__"). *)
Definition format_field (py : python) (a : format_arg) : M unit :=
  match a with
  | F_str => ret tt
  | F_int => raise ValueError
  | F_object =>
      match objects py with
      | FormatsStr => ret tt
      | RefusesSpec => raise TypeError
      end
  end.

(** ["... {:s} ... {:s} ...".format(a1, a2, ...)]: the fields are
    formatted from left to right. The text that results is only logged and
    is not kept. *)
Fixpoint format_s (py : python) (args : list format_arg) : M unit :=
  match args with
  | [] => ret tt
  | a :: args' => _ <- format_field py a ;; format_s py args'
  end.

(** A method call on an object that is not a builder raises
    [AttributeError]. *)
Definition as_builder (p : pyobj) : M HexagonTranslationBuilder :=
  match p with
  | PyBuilder tb => ret tb
  | _ => raise AttributeError
  end.

(** ['statement : expression']: [p[0] = p[1]], then the debug message
    ["Expression {:s} to Statement {:s}".format(p[1], p[0])]. *)
Definition p_statement_expr (py : python) (p1 : pyobj) : M pyobj :=
  let p0 := p1 in
  _ <- format_s py [format_arg_of p1; format_arg_of p0] ;;
  ret p0.

(** ["statement : statement SEMI statement"] *)
Definition p_statemenlist (p1 p2 p3 : pyobj) : M pyobj :=
  tb1 <- as_builder p1 ;;
  tb3 <- as_builder p3 ;;
  ret (PyBuilder (extend_instructions tb1 tb3)).

(** ["statement : statement SEMI"] *)
Definition p_statement_list_2 (p1 p2 : pyobj) : M pyobj := ret p1.

(** ['statement : statement_assign'] *)
Definition p_statement_statementassign (p1 : pyobj) : M pyobj := ret p1.

(** ["expression : register"] *)
Definition p_expression_register (p1 : pyobj) : M pyobj := ret p1.

(** ["register : REG"]. [p[1]] is the lexeme of the token, a [str], which
    the debug message ["Create REIL register: {:s}".format(p[1])] takes as
    it is. *)
Definition p_register_reg (p1 : pyobj) : M pyobj :=
  match p1 with
  | PyStr name =>
      let p0 := new_builder in
      let p0 := set_value p0 (VOperand (ReilRegisterOperand name hexagon_size)) in
      ret (PyBuilder p0)
  | _ => raise ValueError
  end.

(** ['statement_assign : register EQUALS expression | ...'], one body for
    the ten assignment operators. The value that is set is [p[1]], the
    builder of the register, not [p[1].get_value()].

    [p_statementassign_builder] is the builder [p[3]] as the first two
    statements leave it (lines 295-296). The action then sets [p[0]] and
    builds its debug message,
    ["assign {:s} -> {:s}".format(p[3].get_value(), p[1].get_value())],
    whose two arguments are objects. *)
Definition p_statementassign_builder (p1 p3 : pyobj) : M HexagonTranslationBuilder :=
  tb3 <- as_builder p3 ;;
  src <- get_value tb3 ;;
  tb1 <- as_builder p1 ;;
  dst <- get_value tb1 ;;
  let tb3 := add tb3 (gen_str src dst) in
  let tb3 := set_value tb3 (VBuilder tb1) in
  ret tb3.

Definition p_statementassign (py : python) (p1 p2 p3 : pyobj) : M pyobj :=
  tb3 <- p_statementassign_builder p1 p3 ;;
  let p0 := PyBuilder tb3 in
  a1 <- get_value tb3 ;;
  tb1 <- as_builder p1 ;;
  a2 <- get_value tb1 ;;
  _ <- format_s py [format_arg_of_value a1; format_arg_of_value a2] ;;
  ret p0.

(** ['expression : expression PLUS expression | ...'], one body for the
    seventeen operators; [p[2]] is only logged.

    [p_expression_binop_builder] is the builder [p[1]] as the first four
    statements leave it (lines 322-325). The action then sets [p[0]] and
    builds its debug message,
    ["binop {:s} {:s} {:s}".format(p[1].get_value(), p[2], p[3].get_value())],
    whose first and last arguments are objects. *)
Definition p_expression_binop_builder (p1 p3 : pyobj) : M HexagonTranslationBuilder :=
  tb1 <- as_builder p1 ;;
  tb3 <- as_builder p3 ;;
  let tb1 := extend_instructions tb1 tb3 in
  binop_dst <- temporal hexagon_size ;;
  src1 <- get_value tb1 ;;
  src2 <- get_value tb3 ;;
  let tb1 := add tb1 (gen_add src1 src2 binop_dst) in
  let tb1 := set_value tb1 binop_dst in
  ret tb1.

Definition p_expression_binop (py : python) (p1 p2 p3 : pyobj) : M pyobj :=
  tb1 <- p_expression_binop_builder p1 p3 ;;
  let p0 := PyBuilder tb1 in
  a1 <- get_value tb1 ;;
  tb3 <- as_builder p3 ;;
  a3 <- get_value tb3 ;;
  _ <- format_s py [format_arg_of_value a1; format_arg_of p2; format_arg_of_value a3] ;;
  ret p0.

(** [p_error]: [p] is the offending token, or nothing at the end of input. *)
Definition p_error (p : option LexToken) : exn :=
  match p with
  | Some t => UnknownBehaviorException ("Syntax error at " ++ py_str (tok_value t))
  | None => UnknownBehaviorException "Syntax error at EOF"
  end.

(** ** The LALR(1) automaton of the grammar

    [yacc.yacc] builds the tables from the docstrings of the [p_] methods,
    taken in the order of their definition; the start symbol is the
    left-hand side of the first one, [statement]. [precedence] is empty, so
    every shift/reduce conflict is resolved as a shift. *)

Inductive nonterminal := statement | expression | register | statement_assign.

Inductive production :=
| P_statement_expr                         (* statement : expression *)
| P_statemenlist                           (* statement : statement SEMI statement *)
| P_statement_list_2                       (* statement : statement SEMI *)
| P_statement_statementassign              (* statement : statement_assign *)
| P_expression_register                    (* expression : register *)
| P_register_reg                           (* register : REG *)
| P_statementassign (a : assignop)         (* statement_assign : register a expression *)
| P_expression_binop (o : binop).          (* expression : expression o expression *)

Definition prod_name (p : production) : nonterminal :=
  match p with
  | P_statement_expr | P_statemenlist | P_statement_list_2
  | P_statement_statementassign => statement
  | P_expression_register | P_expression_binop _ => expression
  | P_register_reg => register
  | P_statementassign _ => statement_assign
  end.

Definition prod_len (p : production) : nat :=
  match p with
  | P_statement_expr | P_statement_statementassign
  | P_expression_register | P_register_reg => 1
  | P_statement_list_2 => 2
  | P_statemenlist | P_statementassign _ | P_expression_binop _ => 3
  end.

(** [p.callable(pslice)] with [pslice[1..]] the values of the right-hand side. *)
Definition callable (py : python) (p : production) (args : list pyobj) : M pyobj :=
  match p, args with
  | P_statement_expr, [p1] => p_statement_expr py p1
  | P_statemenlist, [p1; p2; p3] => p_statemenlist p1 p2 p3
  | P_statement_list_2, [p1; p2] => p_statement_list_2 p1 p2
  | P_statement_statementassign, [p1] => p_statement_statementassign p1
  | P_expression_register, [p1] => p_expression_register p1
  | P_register_reg, [p1] => p_register_reg p1
  | P_statementassign _, [p1; p2; p3] => p_statementassign py p1 p2 p3
  | P_expression_binop _, [p1; p2; p3] => p_expression_binop py p1 p2 p3
  | _, _ => raise IndexError
  end.

(** The states, named by their kernel items ([.] marks the position):
    - [St_start]: S' -> . statement
    - [St_statement]: S' -> statement . | statement -> statement . SEMI statement
      | statement -> statement . SEMI
    - [St_expression]: statement -> expression . | expression -> expression . o expression
    - [St_statement_assign]: statement -> statement_assign .
    - [St_register]: expression -> register . | statement_assign -> register . a expression
    - [St_REG]: register -> REG .
    - [St_SEMI]: statement -> statement SEMI . statement | statement -> statement SEMI .
    - [St_statemenlist]: statement -> statement SEMI statement .
      | statement -> statement . SEMI statement | statement -> statement . SEMI
    - [St_binop o]: expression -> expression o . expression
    - [St_operand]: expression -> register .
    - [St_binop_rhs o]: expression -> expression o expression .
      | expression -> expression . o' expression
    - [St_assignop a]: statement_assign -> register a . expression
    - [St_assign_rhs a]: statement_assign -> register a expression .
      | expression -> expression . o expression *)
Inductive state :=
| St_start | St_statement | St_expression | St_statement_assign | St_register
| St_REG | St_SEMI | St_statemenlist
| St_binop (o : binop) | St_operand | St_binop_rhs (o : binop)
| St_assignop (a : assignop) | St_assign_rhs (a : assignop).

Inductive lr_action := Shift (s : state) | Reduce (p : production) | Accept.

(** [action[state].get(ltype)]; the lookahead [None] is ['$end']. A reduce
    is entered for the LALR(1) lookaheads of its item; where a shift is
    possible on the same token the shift is kept. *)
Definition action (s : state) (ltype : option token_type) : option lr_action :=
  match s, ltype with
  | St_start, Some REG => Some (Shift St_REG)
  | St_statement, None => Some Accept
  | St_statement, Some SEMI => Some (Shift St_SEMI)
  | St_expression, Some (BINOP o) => Some (Shift (St_binop o))
  | St_expression, (Some SEMI | None) => Some (Reduce P_statement_expr)
  | St_statement_assign, (Some SEMI | None) => Some (Reduce P_statement_statementassign)
  | St_register, Some (ASSIGNOP a) => Some (Shift (St_assignop a))
  | St_register, (Some (BINOP _) | Some SEMI | None) => Some (Reduce P_expression_register)
  | St_REG, (Some (BINOP _) | Some (ASSIGNOP _) | Some SEMI | None) =>
      Some (Reduce P_register_reg)
  | St_SEMI, Some REG => Some (Shift St_REG)
  | St_SEMI, (Some SEMI | None) => Some (Reduce P_statement_list_2)
  | St_statemenlist, Some SEMI => Some (Shift St_SEMI)
  | St_statemenlist, None => Some (Reduce P_statemenlist)
  | St_binop _, Some REG => Some (Shift St_REG)
  | St_operand, (Some (BINOP _) | Some SEMI | None) => Some (Reduce P_expression_register)
  | St_binop_rhs _, Some (BINOP o') => Some (Shift (St_binop o'))
  | St_binop_rhs o, (Some SEMI | None) => Some (Reduce (P_expression_binop o))
  | St_assignop _, Some REG => Some (Shift St_REG)
  | St_assign_rhs _, Some (BINOP o) => Some (Shift (St_binop o))
  | St_assign_rhs a, (Some SEMI | None) => Some (Reduce (P_statementassign a))
  | _, _ => None
  end.

(** [goto[state][pname]] *)
Definition goto (s : state) (n : nonterminal) : option state :=
  match s, n with
  | St_start, statement => Some St_statement
  | St_SEMI, statement => Some St_statemenlist
  | (St_start | St_SEMI), expression => Some St_expression
  | (St_start | St_SEMI), statement_assign => Some St_statement_assign
  | (St_start | St_SEMI), register => Some St_register
  | St_binop o, expression => Some (St_binop_rhs o)
  | St_assignop a, expression => Some (St_assign_rhs a)
  | (St_binop _ | St_assignop _), register => Some St_operand
  | _, _ => None
  end.

(** ** The parser engine ([LRParser.parse]) *)

(** [statestack] and [symstack] move in lockstep and are kept as one list
    of pairs, top first; the bottom entry (state 0, ['$end']) is implicit. *)
Definition stack := list (state * pyobj).

Definition current_state (st : stack) : state :=
  match st with
  | [] => St_start
  | (s, _) :: _ => s
  end.

(** [targ = symstack[-plen-1:]] then [del symstack[-plen:]]: the values
    [p[1] .. p[plen]] and the stack below them. *)
Fixpoint pop_args (n : nat) (st : stack) (acc : list pyobj) : option (list pyobj * stack) :=
  match n with
  | 0 => Some (acc, st)
  | S n' =>
      match st with
      | [] => None
      | (_, v) :: st' => pop_args n' st' (v :: acc)
      end
  end.

Definition reduce (py : python) (p : production) (st : stack) : M stack :=
  match pop_args (prod_len p) st [] with
  | None => raise IndexError
  | Some (args, st') =>
      v <- callable py p args ;;
      match goto (current_state st') (prod_name p) with
      | Some s' => ret ((s', v) :: st')
      | None => raise KeyError
      end
  end.

Inductive outcome :=
| Returned (v : pyobj)
| Raised (e : exn)
| OutOfFuel.

(** What one iteration of the parser's loop does: it goes on with a new
    stack, or it leaves [parse]. *)
Inductive step_result :=
| Next (st : stack) (toks : list LexToken) (g : nat)
| Done (g : nat) (o : outcome).

(** One iteration of the loop. No state of this grammar is a defaulted
    state, so every iteration first needs the lookahead: the next token,
    the exception the lexer raises in its place, or ['$end']. *)
Definition lr_step (py : python) (st : stack) (toks : list LexToken) (e : lex_end)
           (g : nat) : step_result :=
  match toks, e with
  | [], LexRaise x => Done g (Raised x)
  | [], LexFuel => Done g OutOfFuel
  | _, _ =>
      let lookahead := hd_error toks in
      match action (current_state st) (option_map tok_type lookahead) with
      | Some (Shift s') =>
          match toks with
          | t :: toks' => Next ((s', tok_value t) :: st) toks' g
          | [] => Done g (Raised KeyError)
          end
      | Some (Reduce p) =>
          match reduce py p st g with
          | (g', Ok st') => Next st' toks g'
          | (g', Raise x) => Done g' (Raised x)
          end
      | Some Accept =>
          Done g (Returned (match st with (_, v) :: _ => v | [] => PyNone end))
      | None => Done g (Raised (p_error lookahead))
      end
  end.

Fixpoint lr_parse (py : python) (fuel : nat) (st : stack) (toks : list LexToken)
         (e : lex_end) (g : nat) : nat * outcome :=
  match fuel with
  | 0 => (g, OutOfFuel)
  | S fuel' =>
      match lr_step py st toks e g with
      | Next st' toks' g' => lr_parse py fuel' st' toks' e g'
      | Done g' o => (g', o)
      end
  end.

(** Between two shifts the parser makes at most seven reductions. *)
Definition parse_fuel (toks : list LexToken) : nat := 8 * List.length toks + 8.

(** [Parser.parse]: [yacc.parse(input)]. *)
Definition parse (py : python) (input : string) (g : nat) : nat * outcome :=
  let (toks, e) := tokenize py input in
  lr_parse py (parse_fuel toks) [] toks e g.

(** ** Definitions used to state the properties *)

(** The language of a pattern. *)
Fixpoint all_in_class (p : charclass) (s : string) : bool :=
  match s with
  | EmptyString => true
  | String c s' => in_class p c && all_in_class p s'
  end.

Definition within (hi : option nat) (n : nat) : Prop :=
  match hi with
  | Some h => n <= h
  | None => True
  end.

Inductive matches : regex -> string -> Prop :=
| matches_Lit l : matches (Lit l) l
| matches_Cls p c : in_class p c = true -> matches (Cls p) (String c EmptyString)
| matches_Seq r1 r2 s1 s2 :
    matches r1 s1 -> matches r2 s2 -> matches (Seq r1 r2) (s1 ++ s2)
| matches_Opt r s : matches r s -> matches (Opt r) s
| matches_Opt_empty r : matches (Opt r) EmptyString
| matches_Rep p lo hi s :
    all_in_class p s = true -> lo <= String.length s -> within hi (String.length s) ->
    matches (Rep p lo hi) s.

(** The length of the shortest string a pattern matches. *)
Fixpoint min_length (r : regex) : nat :=
  match r with
  | Lit l => String.length l
  | Cls _ => 1
  | Seq r1 r2 => min_length r1 + min_length r2
  | Opt _ => 0
  | Rep _ lo _ => lo
  end.

(** A character that is not ignored and that no lexer rule mentions. *)
Definition unmatched_char (py : python) (c : ascii) : bool :=
  negb (is_ignored c) && forallb (fun r => negb (mentions (snd r) c)) (master py).

Fixpoint all_chars (f : ascii -> bool) (s : string) : bool :=
  match s with
  | EmptyString => true
  | String c s' => f c && all_chars f s'
  end.

(** The value of a hexadecimal numeral, digit by digit. *)
Definition digit_value (c : ascii) : N :=
  match c with
  | "0" => 0 | "1" => 1 | "2" => 2 | "3" => 3 | "4" => 4
  | "5" => 5 | "6" => 6 | "7" => 7 | "8" => 8 | "9" => 9
  | "a" | "A" => 10 | "b" | "B" => 11 | "c" | "C" => 12
  | "d" | "D" => 13 | "e" | "E" => 14 | "f" | "F" => 15
  | _ => 0
  end%char%N.

Fixpoint hex_value (s : string) : N :=
  match s with
  | EmptyString => 0
  | String c s' => (digit_value c * 16 ^ N.of_nat (String.length s') + hex_value s')%N
  end.

(** The text each binary operator is written with. *)
Definition binop_lexeme (o : binop) : string :=
  match o with
  | PLUS => "+" | MINUS => "-" | TIMES => "*" | DIVIDE => "/"
  | OR => "|" | AND => "&" | NOT => "!" | XOR => "^" | LOG_NOT => "~"
  | LSHIFT => "<<" | RSHIFT => ">>" | LT => "<" | GT => ">"
  | LE => "<=" | GE => ">=" | EQ => "==" | NE => "!="
  end.

(** An operand of the fixed width; a builder in an operand slot is not one. *)
Definition is_operand32 (v : Value) : bool :=
  match v with
  | VOperand o => Nat.eqb (operand_size o) hexagon_size
  | VBuilder _ => false
  end.

Definition instr_width_ok (i : ReilInstruction) : bool :=
  match i with
  | mkInstr _ srcs dst => forallb is_operand32 srcs && is_operand32 dst
  end.

(** The calls on a builder other than [set_value]; [temporal] only moves
    the counter of the name generator. *)
Inductive builder_call :=
| Call_add (instr : ReilInstruction)
| Call_extend_instructions (tb : HexagonTranslationBuilder)
| Call_get_instructions
| Call_temporal (size : nat).

Definition do_call (self : HexagonTranslationBuilder) (c : builder_call)
  : HexagonTranslationBuilder :=
  match c with
  | Call_add i => add self i
  | Call_extend_instructions tb => extend_instructions self tb
  | Call_get_instructions | Call_temporal _ => self
  end.

(** Invariant of the parser's stack. Every state is entered on one symbol;
    the stack spells a path of the automaton, and the value stored with a
    state has the shape the actions give to its symbol. *)
Inductive symbol := T (t : token_type) | NT (n : nonterminal).

Definition state_symbol (s : state) : option symbol :=
  match s with
  | St_start => None
  | St_statement | St_statemenlist => Some (NT statement)
  | St_expression | St_binop_rhs _ | St_assign_rhs _ => Some (NT expression)
  | St_statement_assign => Some (NT statement_assign)
  | St_register | St_operand => Some (NT register)
  | St_REG => Some (T REG)
  | St_SEMI => Some (T SEMI)
  | St_binop o => Some (T (BINOP o))
  | St_assignop a => Some (T (ASSIGNOP a))
  end.

Definition trans (s : state) (X : symbol) : option state :=
  match X with
  | T t => match action s (Some t) with Some (Shift s') => Some s' | _ => None end
  | NT n => goto s n
  end.

Definition value_ok (X : symbol) (v : pyobj) : Prop :=
  match X with
  | T _ => exists lexeme, v = PyStr lexeme
  | NT (register | expression) =>
      exists l o, v = PyBuilder (mkTB l (Some (VOperand o))) /\
                  operand_size o = hexagon_size /\ forallb instr_width_ok l = true
  | NT (statement | statement_assign) =>
      exists l val, v = PyBuilder (mkTB l val) /\ forallb instr_width_ok l = true
  end.

Fixpoint stack_ok (st : stack) : Prop :=
  match st with
  | [] => True
  | (s, v) :: st' =>
      match state_symbol s with
      | Some X => trans (current_state st') X = Some s /\ value_ok X v
      | None => False
      end /\ stack_ok st'
  end.

(** The value of every token but an immediate is its lexeme, a [str]. *)
Definition token_ok (t : LexToken) : Prop :=
  tok_type t <> IMM -> exists lexeme, tok_value t = PyStr lexeme.

Definition rank (s : state) : nat :=
  match state_symbol s with
  | Some (NT statement) => 3
  | Some (NT expression) | Some (NT statement_assign) => 2
  | Some (NT register) => 1
  | _ => 0
  end.

(** The number of iterations left is bounded by this measure. *)
Definition measure (st : stack) (toks : list LexToken) : nat :=
  8 * List.length toks + 4 * List.length st + 3 - rank (current_state st).

(** ** Definitions used in the proofs *)

(** What [tokenize] gives on [s]: well-formed tokens, and either the end
    of an input made of characters the rules mention, or [t_error] at some
    position, with no unmatched character before it. *)
Definition lex_spec (py : python) (s : string) (toks : list LexToken) (e : lex_end)
  : Prop :=
  Forall token_ok toks /\
  ((e = LexEOF /\ all_chars (fun c => negb (unmatched_char py c)) s = true) \/
   (exists pre c rest, s = pre ++ String c rest /\
                       all_chars (fun c => negb (unmatched_char py c)) pre = true /\
                       e = LexRaise (t_error (String c rest)))).

(** The production a state reduces by, if it has one. *)
Definition state_reduction (s : state) : option production :=
  match s with
  | St_expression => Some P_statement_expr
  | St_statement_assign => Some P_statement_statementassign
  | St_register | St_operand => Some P_expression_register
  | St_REG => Some P_register_reg
  | St_SEMI => Some P_statement_list_2
  | St_statemenlist => Some P_statemenlist
  | St_binop_rhs o => Some (P_expression_binop o)
  | St_assign_rhs a => Some (P_statementassign a)
  | _ => None
  end.

(** The productions whose action builds a debug message out of objects. *)
Definition formats_objects (p : production) : bool :=
  match p with
  | P_statement_expr | P_statementassign _ | P_expression_binop _ => true
  | _ => false
  end.

(** A stack on which no statement has been reduced yet. *)
Definition no_statement (st : stack) : bool :=
  forallb (fun e => match fst e with
                    | St_statement | St_statement_assign | St_statemenlist | St_SEMI => false
                    | _ => true
                    end) st.

(** What one iteration preserves and what it can end with. *)
Definition step_post (py : python) (st : stack) (toks : list LexToken) (e : lex_end)
           (r : step_result) : Prop :=
  match r with
  | Next st' toks' g' =>
      stack_ok st' /\ Forall token_ok toks' /\
      measure st' toks' < measure st toks /\
      (toks' = toks \/ exists t, toks = t :: toks' /\ tok_type t <> IMM)
  | Done _ (Returned v) =>
      toks = [] /\ e = LexEOF /\
      exists l val, v = PyBuilder (mkTB l val) /\ forallb instr_width_ok l = true
  | Done _ (Raised x) =>
      (toks = [] /\ e = LexRaise x) \/
      (toks = [] /\ e = LexEOF /\ x = p_error None) \/
      (exists t toks', toks = t :: toks' /\ x = p_error (Some t)) \/
      (objects py = RefusesSpec /\ x = TypeError)
  | Done _ OutOfFuel => e = LexFuel
  end.

(** What [lr_parse] can end with, given enough fuel. *)
Definition parse_post (py : python) (toks : list LexToken) (e : lex_end) (o : outcome)
  : Prop :=
  match o with
  | Returned v =>
      e = LexEOF /\ Forall (fun t => tok_type t <> IMM) toks /\
      exists l val, v = PyBuilder (mkTB l val) /\ forallb instr_width_ok l = true
  | Raised x =>
      e = LexRaise x \/ (e = LexEOF /\ x = p_error None) \/
      (exists t, In t toks /\ x = p_error (Some t)) \/
      (objects py = RefusesSpec /\ x = TypeError)
  | OutOfFuel => e = LexFuel
  end.

(** Register and temporary operands of the fixed width. *)
Definition Rreg (name : string) : Value := VOperand (ReilRegisterOperand name hexagon_size).
Definition Rtmp (name : string) : Value := VOperand (ReilTemporaryOperand name hexagon_size).

(** [yacc.parse] on an input that the lexer turns into [toks] before
    reaching its end. *)
Definition parse_tokens (py : python) (toks : list LexToken) (g : nat) : nat * outcome :=
  lr_parse py (parse_fuel toks) [] toks LexEOF g.

Definition tok_REG (name : string) : LexToken := mkTok REG (PyStr name).
Definition tok_EQUALS : LexToken := mkTok EQUALS (PyStr "=").
Definition tok_SEMI : LexToken := mkTok SEMI (PyStr ";").

(** All the operands of an instruction. *)
Definition operands (i : ReilInstruction) : list Value :=
  match i with mkInstr _ srcs dst => srcs ++ [dst] end.

(** ** Definitions used in the further properties *)

(** A token type that occurs in some production of the grammar. *)
Definition in_grammar (ty : token_type) : bool :=
  match ty with
  | REG | BINOP _ | ASSIGNOP _ | SEMI => true
  | _ => false
  end.

(** Blank characters: the ignored ones and the newline. *)
Definition is_blank (c : ascii) : bool := is_ignored c || Ascii.eqb c "010".

(** The text a string rule matches. *)
Definition rule_text (r : token_type * string) : string := unescape (snd r).

(** No rule's text is the beginning of the text of a rule tried after it. *)
Fixpoint no_shadow (l : list (token_type * string)) : bool :=
  match l with
  | [] => true
  | r :: l' =>
      forallb (fun r' => negb (prefix (rule_text r) (rule_text r'))) l' && no_shadow l'
  end.

(** Parse trees of the grammar. *)
Inductive expr_tree :=
| ERegister (name : string)                          (* expression : register; register : REG *)
| EBinop (l : expr_tree) (o : binop) (r : expr_tree). (* expression : expression o expression *)

Inductive stmt_tree :=
| SExpr (e : expr_tree)                              (* statement : expression *)
| SAssign (rd : string) (a : assignop) (e : expr_tree)
                                                     (* statement : statement_assign *)
| SList (s1 s2 : stmt_tree)                          (* statement : statement SEMI statement *)
| SSemi (s1 : stmt_tree).                            (* statement : statement SEMI *)

(** A token as the grammar sees it: a register name, or a token type. *)
Inductive atom :=
| A_REG (name : string)
| A_op (ty : token_type).

Definition atom_of (t : LexToken) : atom :=
  match tok_type t, tok_value t with
  | REG, PyStr name => A_REG name
  | ty, _ => A_op ty
  end.

Fixpoint expr_yield (e : expr_tree) : list atom :=
  match e with
  | ERegister name => [A_REG name]
  | EBinop l o r => (expr_yield l ++ A_op (BINOP o) :: expr_yield r)%list
  end.

Fixpoint stmt_yield (s : stmt_tree) : list atom :=
  match s with
  | SExpr e => expr_yield e
  | SAssign rd a e => A_REG rd :: A_op (ASSIGNOP a) :: expr_yield e
  | SList s1 s2 => (stmt_yield s1 ++ A_op SEMI :: stmt_yield s2)%list
  | SSemi s1 => (stmt_yield s1 ++ [A_op SEMI])%list
  end.

(** The actions of the grammar, run over a tree from the leaves up and
    from left to right. *)
Fixpoint translate_expr (py : python) (e : expr_tree) : M pyobj :=
  match e with
  | ERegister name =>
      p1 <- p_register_reg (PyStr name) ;;
      p_expression_register p1
  | EBinop l o r =>
      p1 <- translate_expr py l ;;
      p3 <- translate_expr py r ;;
      p_expression_binop py p1 (PyStr (binop_lexeme o)) p3
  end.

Definition translate_assign (py : python) (rd : string) (e : expr_tree) : M pyobj :=
  p1 <- p_register_reg (PyStr rd) ;;
  p3 <- translate_expr py e ;;
  p_statementassign py p1 (PyStr "=") p3.

Fixpoint translate_stmt (py : python) (s : stmt_tree) : M pyobj :=
  match s with
  | SExpr e =>
      p1 <- translate_expr py e ;;
      p_statement_expr py p1
  | SAssign rd a e =>
      p1 <- translate_assign py rd e ;;
      p_statement_statementassign p1
  | SList s1 s2 =>
      p1 <- translate_stmt py s1 ;;
      p3 <- translate_stmt py s2 ;;
      p_statemenlist p1 (PyStr ";") p3
  | SSemi s1 =>
      p1 <- translate_stmt py s1 ;;
      p_statement_list_2 p1 (PyStr ";")
  end.

(** What an entry of the parser's stack stands for. *)
Inductive ghost :=
| G_tok (t : LexToken)
| G_register (name : string)
| G_expression (e : expr_tree)
| G_statement_assign (rd : string) (a : assignop) (e : expr_tree)
| G_statement (s : stmt_tree).

Definition ghost_symbol (gh : ghost) : symbol :=
  match gh with
  | G_tok t => T (tok_type t)
  | G_register _ => NT register
  | G_expression _ => NT expression
  | G_statement_assign _ _ _ => NT statement_assign
  | G_statement _ => NT statement
  end.

Definition ghost_yield (gh : ghost) : list atom :=
  match gh with
  | G_tok t => [atom_of t]
  | G_register name => [A_REG name]
  | G_expression e => expr_yield e
  | G_statement_assign rd a e => A_REG rd :: A_op (ASSIGNOP a) :: expr_yield e
  | G_statement s => stmt_yield s
  end.

Definition denote (py : python) (gh : ghost) : M pyobj :=
  match gh with
  | G_tok t => ret (tok_value t)
  | G_register name => p_register_reg (PyStr name)
  | G_expression e => translate_expr py e
  | G_statement_assign rd a e => translate_assign py rd e
  | G_statement s => translate_stmt py s
  end.

(** The stack, read from the bottom, spells the tokens [ys] consumed so
    far; the value of each entry is the translation of what it stands for,
    started with the counter the entry below left, and the value of a token
    is its lexeme. *)
Fixpoint stack_sem (py : python) (st : stack) (g0 g : nat) (ys : list atom) : Prop :=
  match st with
  | [] => g = g0 /\ ys = []
  | (s, v) :: st' =>
      exists gh gm ys1,
        stack_sem py st' g0 gm ys1 /\
        state_symbol s = Some (ghost_symbol gh) /\
        trans (current_state st') (ghost_symbol gh) = Some s /\
        denote py gh gm = (g, Ok v) /\
        ys = (ys1 ++ ghost_yield gh)%list /\
        (forall ty, ghost_symbol gh = T ty -> exists lexeme, v = PyStr lexeme)
  end.

(** The name [get_next] issues when the counter is [k]. *)
Definition tmp_name (k : nat) : string := "t" ++ str_of_nat k.

Definition mnemonic_of (i : ReilInstruction) : ReilMnemonic :=
  match i with mkInstr m _ _ => m end.
Definition sources_of (i : ReilInstruction) : list Value :=
  match i with mkInstr _ srcs _ => srcs end.
Definition dest_of (i : ReilInstruction) : Value :=
  match i with mkInstr _ _ dst => dst end.

Definition is_ADD (i : ReilInstruction) : bool :=
  match mnemonic_of i with ADD => true | STR => false end.
Definition is_STR (i : ReilInstruction) : bool :=
  match mnemonic_of i with STR => true | ADD => false end.

Definition is_binop_token (t : LexToken) : bool :=
  match tok_type t with BINOP _ => true | _ => false end.
Definition is_assign_token (t : LexToken) : bool :=
  match tok_type t with ASSIGNOP _ => true | _ => false end.

(** The registers that are assigned to, in the order of the input: the
    register names that stand right before an assignment operator. *)
Fixpoint assigned_registers (ys : list atom) : list string :=
  match ys with
  | [] => []
  | y :: rest =>
      match y, rest with
      | A_REG name, A_op (ASSIGNOP _) :: _ => name :: assigned_registers rest
      | _, _ => assigned_registers rest
      end
  end.

Fixpoint expr_binops (e : expr_tree) : nat :=
  match e with
  | ERegister _ => 0
  | EBinop l _ r => S (expr_binops l + expr_binops r)
  end.

Fixpoint stmt_binops (s : stmt_tree) : nat :=
  match s with
  | SExpr e | SAssign _ _ e => expr_binops e
  | SList s1 s2 => stmt_binops s1 + stmt_binops s2
  | SSemi s1 => stmt_binops s1
  end.

(** The instructions and the value of an expression whose first
    temporary is the one of counter [g]. *)
Fixpoint expr_code (e : expr_tree) (g : nat) : list ReilInstruction * Value :=
  match e with
  | ERegister name => ([], Rreg name)
  | EBinop l _ r =>
      let c1 := expr_code l g in
      let c3 := expr_code r (g + expr_binops l) in
      let t := Rtmp (tmp_name (g + expr_binops l + expr_binops r)) in
      ((fst c1 ++ fst c3 ++ [mkInstr ADD [snd c1; snd c3] t])%list, t)
  end.

Fixpoint stmt_code (s : stmt_tree) (g : nat) : list ReilInstruction :=
  match s with
  | SExpr e => fst (expr_code e g)
  | SAssign rd _ e =>
      (fst (expr_code e g) ++ [mkInstr STR [snd (expr_code e g)] (Rreg rd)])%list
  | SList s1 s2 => (stmt_code s1 g ++ stmt_code s2 (g + stmt_binops s1))%list
  | SSemi s1 => stmt_code s1 g
  end.

(** A source is in order when it is a register or was written before. *)
Definition use_ok (written : list Value) (x : Value) : Prop :=
  (exists name, x = Rreg name) \/ In x written.

Fixpoint ordered (written : list Value) (code : list ReilInstruction) : Prop :=
  match code with
  | [] => True
  | i :: code' =>
      Forall (use_ok written) (sources_of i) /\ ordered (dest_of i :: written) code'
  end.

Definition atom_is_binop (a : atom) : bool :=
  match a with A_op (BINOP _) => true | _ => false end.
Definition atom_is_assign (a : atom) : bool :=
  match a with A_op (ASSIGNOP _) => true | _ => false end.

Fixpoint stmt_assigns (s : stmt_tree) : nat :=
  match s with
  | SExpr _ => 0
  | SAssign _ _ _ => 1
  | SList s1 s2 => stmt_assigns s1 + stmt_assigns s2
  | SSemi s1 => stmt_assigns s1
  end.

(** The builder that "Rd=Rs+Rt;" gives with a fresh name generator. *)
Definition builder_Rd_Rs_Rt : HexagonTranslationBuilder :=
  mkTB [ mkInstr ADD [Rreg "Rs"; Rreg "Rt"] (Rtmp "t0");
         mkInstr STR [Rtmp "t0"] (Rreg "Rd") ]
       (Some (VBuilder (mkTB [] (Some (Rreg "Rd"))))).

(** The two shapes of instruction the actions emit. *)
Definition emitted_shape (i : ReilInstruction) : Prop :=
  (exists x y k, i = mkInstr ADD [x; y] (Rtmp (tmp_name k))) \/
  (exists x name, i = mkInstr STR [x] (Rreg name)).

Definition register_or_temporary (x : Value) : Prop :=
  (exists name, x = Rreg name) \/ (exists k, x = Rtmp (tmp_name k)).

Definition is_register_value (x : Value) : bool :=
  match x with
  | VOperand (ReilRegisterOperand _ _) => true
  | _ => false
  end.

(** The first source of an ADD is a register. *)
Definition add_left_is_register (i : ReilInstruction) : bool :=
  match i with
  | mkInstr ADD (x :: _) _ => is_register_value x
  | mkInstr ADD [] _ => false
  | mkInstr STR _ _ => true
  end.

Definition code_right (v : pyobj) : bool :=
  match v with
  | PyBuilder (mkTB l _) => forallb add_left_is_register l
  | _ => true
  end.

(** The value of a single register: no instruction yet. *)
Definition is_leaf_value (v : pyobj) : bool :=
  match v with
  | PyBuilder (mkTB [] (Some x)) => is_register_value x
  | _ => false
  end.

Definition is_operand_state (s : state) : bool :=
  match s with
  | St_expression | St_binop_rhs _ | St_assign_rhs _ | St_register | St_operand => true
  | _ => false
  end.

(** The check applies to the values the actions build, not to tokens. *)
Definition entry_code (s : state) (v : pyobj) : bool :=
  match state_symbol s with
  | Some (NT _) => code_right v
  | _ => true
  end.

Definition below_ok (st : stack) : bool :=
  forallb (fun e => entry_code (fst e) (snd e) &&
                    (if is_operand_state (fst e) then is_leaf_value (snd e) else true)) st.

(** The lookaheads on which a binary operation is reduced. *)
Definition closes (la : option token_type) : bool :=
  match la with
  | None | Some SEMI => true
  | _ => false
  end.

(** An expression that is not a single register is on top of the stack
    only when the lookahead closes it. *)
Definition right_ok (st : stack) (la : option token_type) : bool :=
  match st with
  | [] => true
  | (s, v) :: st' =>
      entry_code s v &&
      (if is_operand_state s then is_leaf_value v || closes la else true) &&
      below_ok st'
  end.

(** The text each assignment operator is written with. *)
Definition assignop_lexeme (a : assignop) : string :=
  match a with
  | EQUALS => "=" | TIMESEQUAL => "*=" | DIVEQUAL => "/=" | PLUSEQUAL => "+="
  | MINUSEQUAL => "-=" | LSHIFTEQUAL => "<<=" | RSHIFTEQUAL => ">>="
  | ANDEQUAL => "&=" | OREQUAL => "|=" | XOREQUAL => "^="
  end.

(** [needle in hay] *)
Fixpoint py_in (needle hay : string) : bool :=
  if prefix needle hay then true
  else match hay with
       | EmptyString => false
       | String _ hay' => py_in needle hay'
       end.

(** How the loop of the driver ends. *)
Inductive run_status :=
| Finished
| Crashed (e : exn)
| NoFuel.

(** One turn of the loop of [__main__] for an instruction whose
    [behavior] is given (a [str]): what is printed, and whether the loop goes
    on. An [UnknownBehaviorException] is caught and dropped; any other
    exception leaves the loop. Reading [_instructions] of something that is
    no builder is an [AttributeError]. The debug message of the loop is built
    from a [str] and does not raise, and printing an instruction is taken
    not to raise. *)
Definition main_item (py : python) (behavior : string) (g : nat)
  : nat * list ReilInstruction * run_status :=
  if negb (py_in "Rd=Rs+Rt;" behavior) then (g, [], Finished)
  else if String.eqb behavior "" then (g, [], Finished)
  else
    match parse py behavior g with
    | (g', Returned (PyBuilder parsed)) => (g', _instructions parsed, Finished)
    | (g', Returned _) => (g', [], Crashed AttributeError)
    | (g', Raised (UnknownBehaviorException _)) => (g', [], Finished)
    | (g', Raised e) => (g', [], Crashed e)
    | (g', OutOfFuel) => (g', [], NoFuel)
    end.

(** The loop over the instruction definitions ([inst_defs], here the list
    of their behaviors). *)
Fixpoint main (py : python) (inst_defs : list string) (g : nat)
  : nat * list ReilInstruction * run_status :=
  match inst_defs with
  | [] => (g, [], Finished)
  | behavior :: rest =>
      match main_item py behavior g with
      | (g1, out1, Finished) =>
          match main py rest g1 with
          | (g2, out2, status) => (g2, (out1 ++ out2)%list, status)
          end
      | stopped => stopped
      end
  end.

(** Where the reading of a behavior stands, token by token. *)
Inductive position :=
| At_start | After_first_register | After_operator | After_operand | After_semicolon.

(** The tokens that may come next, and where they lead: a statement is a
    register, optionally an assignment operator and a register, then any
    number of binary operators each with a register; statements are
    separated by one or more semicolons. *)
Definition next_position (q : position) (ty : token_type) : option position :=
  match q, ty with
  | (At_start | After_semicolon), REG => Some After_first_register
  | After_first_register, ASSIGNOP _ => Some After_operator
  | (After_first_register | After_operand), BINOP _ => Some After_operator
  | After_operator, REG => Some After_operand
  | (After_first_register | After_operand | After_semicolon), SEMI => Some After_semicolon
  | _, _ => None
  end.

(** The input may end after a register or a semicolon. *)
Definition may_end (q : position) : bool :=
  match q with
  | At_start | After_operator => false
  | _ => true
  end.

Fixpoint well_formed_from (q : position) (tys : list token_type) : bool :=
  match tys with
  | [] => may_end q
  | ty :: tys' =>
      match next_position q ty with
      | Some q' => well_formed_from q' tys'
      | None => false
      end
  end.

Definition well_formed (tys : list token_type) : bool := well_formed_from At_start tys.

(** Whether the tokens still to come are well formed, given the stack of
    the parser: the state on top says where the reading stands (for
    [St_REG] with the state below it); on a complete statement only a
    semicolon or the end may follow. *)
Definition stack_accepts (st : stack) (tys : list token_type) : bool :=
  match current_state st with
  | St_start => well_formed_from At_start tys
  | St_REG =>
      match current_state (tl st) with
      | St_start | St_SEMI => well_formed_from After_first_register tys
      | _ => well_formed_from After_operand tys
      end
  | St_register => well_formed_from After_first_register tys
  | St_operand | St_expression | St_binop_rhs _ | St_assign_rhs _ =>
      well_formed_from After_operand tys
  | St_binop _ | St_assignop _ => well_formed_from After_operator tys
  | St_SEMI => well_formed_from After_semicolon tys
  | St_statement | St_statement_assign | St_statemenlist =>
      match tys with
      | [] => true
      | SEMI :: tys' => well_formed_from After_semicolon tys'
      | _ => false
      end
  end.

(** The value a statement leaves in its builder: the one of its first
    statement. *)
Fixpoint stmt_value (s : stmt_tree) (g : nat) : Value :=
  match s with
  | SExpr e => snd (expr_code e g)
  | SAssign rd _ _ => VBuilder (mkTB [] (Some (Rreg rd)))
  | SList s1 _ | SSemi s1 => stmt_value s1 g
  end.

(** The register an input assigns to first, when it starts with an
    assignment. *)
Definition starts_with_assignment (ys : list atom) : option string :=
  match ys with
  | A_REG rd :: A_op (ASSIGNOP _) :: _ => Some rd
  | _ => None
  end.

(** A first statement is complete at this position. *)
Definition ends_statement (q : position) : bool :=
  match q with
  | After_first_register | After_operand => true
  | _ => false
  end.

(** Whether the tokens, read from the position [q], go on to the end of a
    first statement that is followed by a semicolon or by the end of the
    input; [eof] says whether the lexer reaches the end of the input after
    the last token. *)
Fixpoint first_statement_ends (q : position) (tys : list token_type) (eof : bool) : bool :=
  match tys with
  | [] => eof && ends_statement q
  | SEMI :: _ => ends_statement q
  | ty :: tys' =>
      match next_position q ty with
      | Some q' => first_statement_ends q' tys' eof
      | None => false
      end
  end.

Definition is_eof (e : lex_end) : bool :=
  match e with
  | LexEOF => true
  | _ => false
  end.

(** Where the reading stands, given the stack of the parser, as long as no
    statement has been reduced. *)
Definition stack_position (st : stack) : position :=
  match current_state st with
  | St_start => At_start
  | St_REG =>
      match current_state (tl st) with
      | St_start | St_SEMI => After_first_register
      | _ => After_operand
      end
  | St_register => After_first_register
  | St_binop _ | St_assignop _ => After_operator
  | St_SEMI => After_semicolon
  | _ => After_operand
  end.

(** ** Tactics for the invariant of the stack *)

(** One level of the stack: the state below is one that has the
    transition recorded in the invariant. *)
Ltac lvl :=
  match goal with
  | Hok : stack_ok ?st, Ht : trans (current_state ?st) _ = Some _ |- _ =>
      is_var st;
      let s := fresh "s" in
      let v := fresh "v" in
      let st' := fresh "st" in
      destruct st as [|[s v] st'];
      [ cbn in Ht; first [discriminate Ht | inversion Ht; subst; try clear Ht]
      | destruct s; cbn [stack_ok state_symbol] in Hok;
        first
          [ solve [destruct Hok as [[] _]]
          | cbn in Ht; first [discriminate Ht | inversion Ht; subst; try clear Ht];
            let Ht' := fresh "Ht" in
            let Hv := fresh "Hv" in
            destruct Hok as [[Ht' Hv] Hok] ] ]
  end.

Ltac open_values :=
  repeat match goal with
  | H : value_ok _ _ |- _ => cbn [value_ok] in H
  | H : exists _, _ |- _ => destruct H
  | H : _ /\ _ |- _ => destruct H
  end; subst.

Ltac fin :=
  lazymatch goal with
  | |- _ /\ _ => split; [fin | fin]
  | |- exists _, _ => eexists; fin
  | |- True => exact I
  | |- forallb instr_width_ok _ = true =>
      unfold add, extend_instructions, set_value, gen_add, gen_str;
      cbn [_instructions _value]; rewrite ?forallb_app;
      cbn [forallb instr_width_ok is_operand32 operand_size];
      repeat match goal with
             | H : forallb instr_width_ok _ = true |- _ => try rewrite H; clear H
             | H : operand_size _ = _ |- _ => try rewrite H; clear H
             end;
      reflexivity
  | |- _ => first [reflexivity | assumption | lia]
  end.

Section Interpreter.

Variable py : python.

(** ** The matcher is sound for the language of a pattern *)

Lemma append_empty_r (s : string) : s ++ "" = s.
Proof. induction s; simpl; congruence. Qed.

Lemma append_assoc (a b c : string) : (a ++ b) ++ c = a ++ (b ++ c).
Proof. induction a; simpl; congruence. Qed.

Lemma length_append (a b : string) :
  String.length (a ++ b) = String.length a + String.length b.
Proof. induction a; simpl; congruence. Qed.

Lemma substring_prefix (a b : string) :
  substring 0 (String.length (a ++ b) - String.length b) (a ++ b) = a.
Proof.
  rewrite length_append, Nat.add_sub.
  induction a; simpl.
  - destruct b; reflexivity.
  - now rewrite IHa.
Qed.

Lemma strip_prefix_sound (l s rest : string) :
  strip_prefix l s = Some rest -> s = l ++ rest.
Proof.
  revert s; induction l as [|a l IH]; intros s H; simpl in *.
  - congruence.
  - destruct s as [|b s]; [discriminate|].
    destruct (Ascii.eqb_spec a b); [|discriminate].
    subst; f_equal; auto.
Qed.

Lemma rep_match_sound {A} (p : charclass) (s : string) :
  forall lo hi (k : string -> option A) x,
    rep_match p lo hi s k = Some x ->
    exists s1 s2, s = s1 ++ s2 /\ all_in_class p s1 = true /\
                  lo <= String.length s1 /\ within hi (String.length s1) /\
                  k s2 = Some x.
Proof.
  induction s as [|c s IH]; intros lo hi k x H; simpl in H.
  - destruct lo; [|discriminate].
    exists "", ""; repeat split; auto. destruct hi; simpl; lia.
  - assert (Hstop : match lo with 0 => k (String c s) | S _ => None end = Some x ->
                    exists s1 s2, String c s = s1 ++ s2 /\ all_in_class p s1 = true /\
                                  lo <= String.length s1 /\ within hi (String.length s1) /\
                                  k s2 = Some x).
    { intros E; destruct lo; [|discriminate].
      exists "", (String c s); repeat split; auto. destruct hi; simpl; lia. }
    destruct (in_class p c) eqn:Hc; simpl in H; [|auto].
    destruct (may_take hi) eqn:Hm; simpl in H; [|auto].
    destruct (rep_match p (pred lo) (dec_hi hi) s k) eqn:Hr; [|auto].
    injection H as <-.
    destruct (IH _ _ _ _ Hr) as (s1 & s2 & -> & Hall & Hlo & Hhi & Hk).
    exists (String c s1), s2; simpl; rewrite Hc, Hall; repeat split; auto; [lia|].
    destruct hi as [[|h]|]; simpl in *; try discriminate; lia.
Qed.

Lemma re_match_sound {A} (r : regex) :
  forall s (k : string -> option A) x,
    re_match r s k = Some x ->
    exists s1 s2, s = s1 ++ s2 /\ matches r s1 /\ k s2 = Some x.
Proof.
  induction r as [l|p|r1 IH1 r2 IH2|r IH|p lo hi]; intros s k x H; simpl in H.
  - destruct (strip_prefix l s) as [rest|] eqn:E; [|discriminate].
    apply strip_prefix_sound in E. exists l, rest; repeat split; auto. constructor.
  - destruct s as [|c s]; [discriminate|].
    destruct (in_class p c) eqn:Hc; [|discriminate].
    exists (String c ""), s; repeat split; auto. now constructor.
  - destruct (IH1 _ _ _ H) as (s1 & s2 & -> & M1 & H2).
    destruct (IH2 _ _ _ H2) as (s3 & s4 & -> & M2 & H4).
    exists (s1 ++ s3), s4; rewrite append_assoc; repeat split; auto. now constructor.
  - destruct (re_match r s k) eqn:E.
    + injection H as <-. destruct (IH _ _ _ E) as (s1 & s2 & -> & M1 & H2).
      exists s1, s2; split; [reflexivity|split; [now constructor|assumption]].
    + exists "", s; split; [reflexivity|split; [apply matches_Opt_empty|assumption]].
  - destruct (rep_match_sound _ _ _ _ _ _ H) as (s1 & s2 & -> & Ha & Hlo & Hhi & Hk).
    exists s1, s2; repeat split; auto. now constructor.
Qed.

Lemma match_rest_sound (r : regex) (s rest : string) :
  match_rest r s = Some rest -> exists lexeme, s = lexeme ++ rest /\ matches r lexeme.
Proof.
  intros H. destruct (re_match_sound _ _ _ _ H) as (s1 & s2 & -> & M & E).
  injection E as ->. eauto.
Qed.

Lemma all_in_class_all_chars p s : all_in_class p s = all_chars (in_class p) s.
Proof. induction s; simpl; congruence. Qed.

Lemma all_chars_append f a b : all_chars f (a ++ b) = all_chars f a && all_chars f b.
Proof. induction a; simpl; auto. rewrite IHa. now rewrite andb_assoc. Qed.

Lemma all_chars_impl (f g : ascii -> bool) s :
  (forall c, f c = true -> g c = true) -> all_chars f s = true -> all_chars g s = true.
Proof.
  intros Hfg; induction s; simpl; auto.
  rewrite !andb_true_iff; intros [? ?]; auto.
Qed.

Lemma matches_min_length r s : matches r s -> min_length r <= String.length s.
Proof.
  induction 1; simpl; try lia.
  rewrite length_append; lia.
Qed.

Lemma matches_mentions r s : matches r s -> all_chars (mentions r) s = true.
Proof.
  induction 1; simpl.
  - induction l as [|a l IH]; simpl; auto.
    rewrite Ascii.eqb_refl; simpl.
    eapply all_chars_impl; [|exact IH].
    intros c Hc; simpl. rewrite Hc. apply orb_true_r.
  - now rewrite H.
  - rewrite all_chars_append, andb_true_iff; split.
    + eapply all_chars_impl; [|exact IHmatches1]. intros c ->; reflexivity.
    + eapply all_chars_impl; [|exact IHmatches2]. intros c ->; apply orb_true_r.
  - assumption.
  - reflexivity.
  - now rewrite <- all_in_class_all_chars.
Qed.

(** ** The rules of the master pattern *)

Lemma first_match_sound (rules : list (lexrule * regex)) (s : string) r lexeme rest :
  first_match rules s = Some (r, lexeme, rest) ->
  exists re, In (r, re) rules /\ matches re lexeme /\ s = lexeme ++ rest.
Proof.
  induction rules as [|[r0 re0] rules IH]; simpl; [discriminate|].
  destruct (match_rest re0 s) as [rest0|] eqn:E.
  - intros H; injection H as <- <- <-.
    destruct (match_rest_sound _ _ _ E) as (lx & -> & M).
    exists re0. rewrite substring_prefix. auto.
  - intros H. destruct (IH H) as (re & ? & ? & ?). exists re; auto.
Qed.

Lemma master_min_length r re : In (r, re) (master py) -> 1 <= min_length re.
Proof.
  intros H.
  assert (A : forallb (fun x => Nat.leb 1 (min_length (snd x))) (master py) = true)
    by (vm_compute; reflexivity).
  rewrite forallb_forall in A. specialize (A _ H). now apply Nat.leb_le in A.
Qed.

Lemma master_mentions r re c :
  In (r, re) (master py) -> mentions re c = true -> unmatched_char py c = false.
Proof.
  intros H Hm. unfold unmatched_char.
  destruct (forallb (fun r0 => negb (mentions (snd r0) c)) (master py)) eqn:A.
  - rewrite forallb_forall in A. specialize (A _ H). simpl in A.
    rewrite Hm in A. discriminate.
  - apply andb_false_r.
Qed.

Lemma master_t_IMM re : In (t_IMM, re) (master py) -> re = imm_pattern.
Proof.
  intros H. vm_compute in H.
  repeat (destruct H as [H|H]; [try discriminate H; injection H as <-; reflexivity|]).
  destruct H.
Qed.

(** ** [t_IMM] *)

Lemma re_sub_0x_cons2 c c' s :
  re_sub_0x (String c (String c' s)) =
  if (Ascii.eqb c "0" && Ascii.eqb c' "x")%bool then re_sub_0x s
  else String c (re_sub_0x (String c' s)).
Proof. reflexivity. Qed.

Lemma re_sub_0x_hex s : all_in_class hexdigit s = true -> re_sub_0x s = s.
Proof.
  induction s as [|c s IH]; [reflexivity|].
  intros H. simpl in H. apply andb_true_iff in H as [Hc Hs].
  destruct s as [|c' s']; [reflexivity|].
  rewrite re_sub_0x_cons2.
  destruct (Ascii.eqb_spec c' "x") as [->|_].
  - simpl in Hs. discriminate Hs.
  - rewrite andb_false_r. now rewrite IH.
Qed.

Lemma hex_digit_value c : in_class hexdigit c = true -> hex_digit c = Some (digit_value c).
Proof.
  intros H.
  destruct c as [[] [] [] [] [] [] [] []]; vm_compute in H; try discriminate H; reflexivity.
Qed.

Lemma int16_digits_hex s : forall acc,
  all_in_class hexdigit s = true ->
  int16_digits acc s = Some (acc * 16 ^ N.of_nat (String.length s) + hex_value s)%N.
Proof.
  induction s as [|c s IH]; intros acc H.
  - simpl. f_equal. lia.
  - simpl in H. apply andb_true_iff in H as [Hc Hs].
    cbn [int16_digits hex_value String.length]. rewrite (hex_digit_value _ Hc), (IH _ Hs).
    f_equal. rewrite Nat2N.inj_succ, N.pow_succ_r'. lia.
Qed.

Lemma int_base16_hex s :
  s <> "" -> all_in_class hexdigit s = true -> int_base16 s = Some (hex_value s).
Proof.
  intros Hne H. destruct s as [|c s]; [congruence|].
  unfold int_base16. rewrite (int16_digits_hex _ _ H). f_equal.
Qed.

Lemma matches_imm_pattern lexeme :
  matches imm_pattern lexeme ->
  exists ds, (lexeme = "0x" ++ ds \/ lexeme = ds) /\ ds <> "" /\
             all_in_class hexdigit ds = true.
Proof.
  intros M. inversion M as [| |r1 r2 s1 s2 M1 M2| | |]; subst.
  inversion M2; subst.
  exists s2. split; [|split; [|assumption]].
  - inversion M1 as [| | |r s M0|r|]; subst; [|now right].
    inversion M0; subst. now left.
  - intros ->. simpl in *. lia.
Qed.

Lemma t_IMM_value ds lineno :
  ds <> "" -> all_in_class hexdigit ds = true ->
  rule_action t_IMM ("0x" ++ ds) lineno = (lineno, inr (Some (mkTok IMM (PyInt (hex_value ds))))) /\
  rule_action t_IMM ds lineno = (lineno, inr (Some (mkTok IMM (PyInt (hex_value ds))))).
Proof.
  intros Hne H.
  assert (E : re_sub_0x ("0x" ++ ds) = re_sub_0x ds) by reflexivity.
  unfold rule_action. rewrite E, (re_sub_0x_hex _ H), (int_base16_hex _ Hne H). auto.
Qed.

Lemma rule_action_no_raise r re lexeme lineno :
  In (r, re) (master py) -> matches re lexeme ->
  exists lineno' res, rule_action r lexeme lineno = (lineno', inr res) /\
    match res with Some t => token_ok t | None => True end.
Proof.
  intros Hin M.
  assert (Tok : forall ty v, ty = IMM \/ (exists name, v = PyStr name) ->
                             token_ok (mkTok ty v)).
  { intros ty v [Hty|Hv] E; simpl in *; [congruence|assumption]. }
  destruct r; simpl;
    try (do 2 eexists; split; [reflexivity|];
         first [exact I | apply Tok; right; eauto]; fail).
  apply master_t_IMM in Hin; subst re.
  destruct (matches_imm_pattern _ M) as (ds & Hl & Hne & Hh).
  destruct (t_IMM_value ds lineno Hne Hh) as [E1 E2]. unfold rule_action in E1, E2.
  destruct Hl as [-> | ->]; [rewrite E1|rewrite E2];
    do 2 eexists; (split; [reflexivity|]); apply Tok; left; reflexivity.
Qed.

(** ** The token stream *)

Lemma lex_spec_skip s lexeme rest toks e :
  s = lexeme ++ rest ->
  all_chars (fun c => negb (unmatched_char py c)) lexeme = true ->
  lex_spec py rest toks e -> lex_spec py s toks e.
Proof.
  intros -> Hl [Hok [[-> Hall]|(pre & c & r & -> & Hpre & ->)]]; split; auto.
  - left; split; auto. rewrite all_chars_append, Hl, Hall. reflexivity.
  - right. exists (lexeme ++ pre), c, r. rewrite append_assoc, all_chars_append, Hl, Hpre. auto.
Qed.

Lemma token_stream_spec fuel : forall lineno s,
  String.length s < fuel ->
  exists toks e, token_stream py fuel lineno s = (toks, e) /\ lex_spec py s toks e.
Proof.
  induction fuel as [|fuel IH]; intros lineno s Hlen; [lia|].
  destruct s as [|c s]; cbn [token_stream].
  - exists [], LexEOF; split; [reflexivity|]. split; [constructor|left; auto].
  - simpl in Hlen. destruct (is_ignored c) eqn:Hi.
    + destruct (IH lineno s ltac:(lia)) as (toks & e & -> & Hs).
      exists toks, e; split; [reflexivity|].
      apply (lex_spec_skip _ (String c "") s); auto.
      simpl. unfold unmatched_char. rewrite Hi. reflexivity.
    + destruct (first_match (master py) (String c s)) as [[[r lexeme] rest]|] eqn:Hm.
      * destruct (first_match_sound _ _ _ _ _ Hm) as (re & Hin & M & Hs).
        pose proof (matches_min_length _ _ M) as Hmin.
        pose proof (master_min_length _ _ Hin) as Hone.
        assert (Hrest : String.length rest < fuel).
        { apply (f_equal String.length) in Hs. rewrite length_append in Hs.
          simpl in Hs. lia. }
        assert (Hlex : all_chars (fun c => negb (unmatched_char py c)) lexeme = true).
        { eapply all_chars_impl; [|exact (matches_mentions _ _ M)].
          intros c0 Hc0. now rewrite (master_mentions _ _ _ Hin Hc0). }
        destruct (rule_action_no_raise r re lexeme lineno Hin M)
          as (lineno' & res & -> & Hres).
        destruct (IH lineno' rest Hrest) as (toks & e & -> & Hspec).
        pose proof (lex_spec_skip _ _ _ _ _ Hs Hlex Hspec) as [Hok Hend].
        destruct res as [tok|].
        -- exists (tok :: toks), e; split; [reflexivity|]. split; auto.
        -- exists toks, e; split; [reflexivity|]. split; auto.
      * exists [], (LexRaise (t_error (String c s))); split; [reflexivity|].
        split; [constructor|]. right. exists "", c, s. auto.
Qed.

Lemma tokenize_spec s : exists toks e, tokenize py s = (toks, e) /\ lex_spec py s toks e.
Proof. apply token_stream_spec. lia. Qed.

(** ** The automaton *)

Lemma action_reduce s la p :
  action s la = Some (Reduce p) -> state_reduction s = Some p.
Proof.
  destruct s; destruct la as [[]|]; simpl; intros H; try discriminate H;
    injection H as <-; reflexivity.
Qed.

Lemma action_shift_symbol s t s' :
  action s (Some t) = Some (Shift s') -> state_symbol s' = Some (T t).
Proof.
  destruct s; destruct t; simpl; intros H; try discriminate H;
    injection H as <-; reflexivity.
Qed.

Lemma action_accept s la :
  action s la = Some Accept -> s = St_statement /\ la = None.
Proof.
  destruct s; destruct la as [[]|]; simpl; intros H; try discriminate H; auto.
Qed.

Lemma action_IMM s : action s (Some IMM) = None.
Proof. destruct s; reflexivity. Qed.

Lemma rank_le s : rank s <= 3.
Proof. destruct s; unfold rank; simpl; lia. Qed.

Lemma forallb_instr_app l1 l2 :
  forallb instr_width_ok l1 = true -> forallb instr_width_ok l2 = true ->
  forallb instr_width_ok (l1 ++ l2) = true.
Proof. intros H1 H2. rewrite forallb_app, H1, H2. reflexivity. Qed.

End Interpreter.

(** ** The actions and the formatting of objects *)

(** Where objects are formatted as on Python 2.7, every reduction goes
    through. *)
Lemma reduce_ok w st p g :
  stack_ok st -> state_reduction (current_state st) = Some p ->
  exists st' g', reduce {| words := w; objects := FormatsStr |} p st g = (g', Ok st') /\
    stack_ok st' /\
    List.length st' <= List.length st /\
    4 * List.length st' + rank (current_state st) <
    4 * List.length st + rank (current_state st').
Proof.
  intros Hok Hp. destruct st as [|[s v] st]; [discriminate Hp|].
  cbn [current_state] in Hp.
  destruct s; cbn in Hp; try discriminate Hp; injection Hp as <-;
    cbn [stack_ok state_symbol] in Hok; destruct Hok as [[Ht Hv] Hok].
  all: lvl.
  all: try lvl.
  all: try lvl.
  all: open_values.
  all: unfold reduce; cbn.
  all: do 2 eexists; (split; [reflexivity|]).
  all: cbn [stack_ok state_symbol current_state value_ok]; unfold rank, trans in *; cbn.
  all: fin.
Qed.

(** Where the specification is refused, as on Python 3, the three
    actions that format an object raise [TypeError], the one of a binary
    operation after it has taken its temporary; the other actions do what
    they do on Python 2.7. *)
Lemma reduce_refuses w st p g :
  stack_ok st -> state_reduction (current_state st) = Some p ->
  reduce {| words := w; objects := RefusesSpec |} p st g =
    match p with
    | P_statement_expr | P_statementassign _ => (g, Raise TypeError)
    | P_expression_binop _ => (S g, Raise TypeError)
    | _ => reduce {| words := w; objects := FormatsStr |} p st g
    end.
Proof.
  intros Hok Hp. destruct st as [|[s v] st]; [discriminate Hp|].
  cbn [current_state] in Hp.
  destruct s; cbn in Hp; try discriminate Hp; injection Hp as <-;
    cbn [stack_ok state_symbol] in Hok; destruct Hok as [[Ht Hv] Hok];
    try reflexivity.
  all: lvl.
  all: try lvl.
  all: try lvl.
  all: open_values.
  all: reflexivity.
Qed.

Lemma reduce_py_ok py st p g :
  stack_ok st -> state_reduction (current_state st) = Some p ->
  (exists st' g', reduce py p st g = (g', Ok st') /\ stack_ok st' /\
     List.length st' <= List.length st /\
     4 * List.length st' + rank (current_state st) <
     4 * List.length st + rank (current_state st')) \/
  (objects py = RefusesSpec /\ formats_objects p = true /\
   exists g', reduce py p st g = (g', Raise TypeError) /\ g <= g' <= S g).
Proof.
  intros Hok Hp. destruct py as [w []].
  - left. now apply reduce_ok.
  - rewrite (reduce_refuses w st p g Hok Hp).
    destruct p; try (left; now apply reduce_ok);
      right; (split; [reflexivity|]); (split; [reflexivity|]); eexists; split;
      try reflexivity; lia.
Qed.

Section Engine.

Variable py : python.

Lemma action_end_no_shift s s' : action s None <> Some (Shift s').
Proof. destruct s; simpl; discriminate. Qed.

Lemma rank_shifted s t s' : action s (Some t) = Some (Shift s') -> rank s' = 0.
Proof. intros H. unfold rank. now rewrite (action_shift_symbol _ _ _ H). Qed.

Lemma lr_step_ok st toks e g :
  stack_ok st -> Forall token_ok toks -> step_post py st toks e (lr_step py st toks e g).
Proof.
  intros Hst Htoks. unfold lr_step.
  assert (Hred : forall la p, action (current_state st) la = Some (Reduce p) ->
            step_post py st toks e
              (match reduce py p st g with
               | (g', Ok st') => Next st' toks g'
               | (g', Raise x) => Done g' (Raised x)
               end)).
  { intros la p Ha. apply action_reduce in Ha.
    destruct (reduce_py_ok py st p g Hst Ha)
      as [(st' & g' & -> & Hok' & Hlen & Hm)|(Hpy & _ & g' & -> & _)].
    - simpl. repeat split; auto. unfold measure.
      pose proof (rank_le (current_state st)). pose proof (rank_le (current_state st')). lia.
    - simpl. auto. }
  destruct toks as [|t toks].
  - destruct e; simpl; auto.
    destruct (action (current_state st) None) as [[s'|p|]|] eqn:Ha.
    + now apply action_end_no_shift in Ha.
    + eapply Hred; eauto.
    + apply action_accept in Ha as [Hs _]. simpl.
      destruct st as [|[s v] st]; [discriminate Hs|]. simpl in Hs; subst s.
      cbn [stack_ok state_symbol value_ok] in Hst.
      destruct Hst as [[_ (l & val & -> & Hl)] _]. repeat split; eauto.
    + simpl. auto.
  - cbn [hd_error option_map].
    destruct (action (current_state st) (Some (tok_type t))) as [[s'|p|]|] eqn:Ha.
    + simpl. inversion Htoks as [|? ? Ht Htoks']; subst.
      split; [|split; [assumption|split]].
      * cbn [stack_ok]. rewrite (action_shift_symbol _ _ _ Ha). cbn [current_state].
        split; [|assumption]. split; [unfold trans; now rewrite Ha|].
        unfold value_ok. apply Ht. intros E. rewrite E, action_IMM in Ha. discriminate.
      * unfold measure. cbn [current_state List.length].
        rewrite (rank_shifted _ _ _ Ha). pose proof (rank_le (current_state st)). lia.
      * right. exists t; split; auto. intros E. rewrite E, action_IMM in Ha. discriminate.
    + pose proof (Hred _ _ Ha) as H.
      destruct (reduce py p st g) as [g' [st'|x]]; exact H.
    + apply action_accept in Ha as [_ Ha]. discriminate.
    + simpl. right; right. eauto.
Qed.

Lemma lr_parse_ok e fuel : forall st toks g,
  stack_ok st -> Forall token_ok toks -> measure st toks < fuel ->
  parse_post py toks e (snd (lr_parse py fuel st toks e g)).
Proof.
  induction fuel as [|fuel IH]; intros st toks g Hst Htoks Hm; [lia|].
  cbn [lr_parse]. pose proof (lr_step_ok st toks e g Hst Htoks) as Hstep.
  destruct (lr_step py st toks e g) as [st' toks' g'|g' o]; simpl in Hstep.
  - destruct Hstep as (Hst' & Htoks' & Hm' & Hrel).
    specialize (IH st' toks' g' Hst' Htoks' ltac:(lia)).
    destruct (snd (lr_parse py fuel st' toks' e g')) as [v|x|]; simpl in *; auto.
    + destruct IH as (He & Hall & Hv). repeat split; auto.
      destruct Hrel as [->|(t & -> & Ht)]; auto.
    + destruct IH as [?|[?|[(t & Hin & Hx)|?]]]; auto.
      right; right; left. exists t; split; auto.
      destruct Hrel as [->|(t' & -> & _)]; simpl; auto.
  - simpl. destruct o as [v|x|]; simpl in *; auto.
    + destruct Hstep as (-> & He & Hv). auto.
    + destruct Hstep as [[_ ?]|[(_ & ? & ?)|[(t & toks' & -> & ->)|?]]]; auto.
      right; right; left. exists t; simpl; auto.
Qed.

Lemma parse_spec (s : string) (g : nat) :
  exists toks e, tokenize py s = (toks, e) /\ lex_spec py s toks e /\
                 parse_post py toks e (snd (parse py s g)).
Proof.
  destruct (tokenize_spec py s) as (toks & e & Htok & Hspec).
  exists toks, e; split; [assumption|split; [assumption|]].
  unfold parse. rewrite Htok. apply lr_parse_ok.
  - exact I.
  - apply Hspec.
  - unfold measure, parse_fuel. simpl. lia.
Qed.

End Engine.

(** ** Where objects are not formatted, nothing is ever returned *)

(** A stack that holds no statement: none of the reductions to
    [statement] or [statement_assign] has been made. *)
Lemma shift_no_statement st t s' v :
  no_statement st = true -> action (current_state st) (Some t) = Some (Shift s') ->
  no_statement ((s', v) :: st) = true.
Proof.
  intros Hno Ha. cbn [no_statement forallb fst]. fold (no_statement st). rewrite Hno.
  destruct st as [|[s v0] st]; cbn [current_state] in Ha.
  - destruct t; cbn in Ha; try discriminate Ha; injection Ha as <-; reflexivity.
  - cbn [no_statement forallb fst] in Hno. apply andb_true_iff in Hno as [Hs _].
    destruct s; try discriminate Hs; destruct t; cbn in Ha; try discriminate Ha;
      injection Ha as <-; reflexivity.
Qed.

Lemma reduce_no_statement w st p g st' g' :
  stack_ok st -> no_statement st = true ->
  state_reduction (current_state st) = Some p ->
  reduce {| words := w; objects := RefusesSpec |} p st g = (g', Ok st') ->
  no_statement st' = true.
Proof.
  intros Hok Hno Hp. rewrite (reduce_refuses w st p g Hok Hp).
  destruct st as [|[s v] st]; [discriminate Hp|].
  cbn [current_state] in Hp. cbn [no_statement forallb fst] in Hno.
  apply andb_true_iff in Hno as [Hs Hno]. fold (no_statement st) in Hno.
  destruct s; try discriminate Hs; cbn in Hp; try discriminate Hp; injection Hp as <-;
    try discriminate;
    cbn [stack_ok state_symbol] in Hok; destruct Hok as [[Ht Hv] Hok].
  all: lvl; open_values; unfold reduce; cbn; intros H; injection H as _ <-.
  all: cbn [no_statement forallb fst] in *; try rewrite Hno; reflexivity.
Qed.

Lemma lr_parse_no_statement w e fuel : forall st toks g v,
  stack_ok st -> Forall token_ok toks -> no_statement st = true ->
  snd (lr_parse {| words := w; objects := RefusesSpec |} fuel st toks e g) <> Returned v.
Proof.
  induction fuel as [|fuel IH]; intros st toks g v Hst Htoks Hno; [discriminate|].
  cbn [lr_parse].
  pose proof (lr_step_ok {| words := w; objects := RefusesSpec |} st toks e g Hst Htoks)
    as Hstep.
  unfold lr_step in *.
  destruct toks as [|t toks].
  - destruct e; try discriminate.
    cbn [hd_error option_map] in *.
    destruct (action (current_state st) None) as [[s'|p|]|] eqn:Ha; try discriminate.
    + apply action_reduce in Ha.
      destruct (reduce {| words := w; objects := RefusesSpec |} p st g)
        as [g' [st'|x]] eqn:E; [|discriminate].
      destruct Hstep as (Hst' & _). apply IH; auto.
      exact (reduce_no_statement w st p g st' g' Hst Hno Ha E).
    + apply action_accept in Ha as [Hs _].
      destruct st as [|[s v0] st]; [discriminate Hs|]. simpl in Hs; subst s.
      discriminate Hno.
  - cbn [hd_error option_map] in *.
    destruct (action (current_state st) (Some (tok_type t))) as [[s'|p|]|] eqn:Ha;
      try discriminate.
    + destruct Hstep as (Hst' & Htoks' & _). apply IH; auto.
      exact (shift_no_statement st _ s' _ Hno Ha).
    + apply action_reduce in Ha.
      destruct (reduce {| words := w; objects := RefusesSpec |} p st g)
        as [g' [st'|x]] eqn:E; [|discriminate].
      destruct Hstep as (Hst' & _). apply IH; auto.
      exact (reduce_no_statement w st p g st' g' Hst Hno Ha E).
    + apply action_accept in Ha as [_ Ha]. discriminate Ha.
Qed.

Lemma parse_refuses_raises (py : python) (s : string) (g : nat) (v : pyobj) :
  objects py = RefusesSpec -> snd (parse py s g) <> Returned v.
Proof.
  destruct py as [w f]. cbn. intros ->.
  destruct (tokenize_spec {| words := w; objects := RefusesSpec |} s)
    as (toks & e & Htok & [Htoks _]).
  unfold parse. rewrite Htok. now apply lr_parse_no_statement.
Qed.

(** [parse] always comes to an end. It returns a builder, which it does
    only where objects are formatted, or it raises
    [UnknownBehaviorException], or, where they are not, the [TypeError] of
    a debug message. *)
Lemma parse_total (py : python) (s : string) (g : nat) :
  (objects py = FormatsStr /\
   exists l val, snd (parse py s g) = Returned (PyBuilder (mkTB l val))) \/
  (exists msg, snd (parse py s g) = Raised (UnknownBehaviorException msg)) \/
  (objects py = RefusesSpec /\ snd (parse py s g) = Raised TypeError).
Proof.
  destruct (parse_spec py s g) as (toks & e & _ & [_ Hend] & Hpost).
  destruct (snd (parse py s g)) as [v|x|] eqn:E; simpl in Hpost.
  - destruct Hpost as (_ & _ & l & val & -> & _). left. split; [|eauto].
    destruct (objects py) eqn:Hf; [reflexivity|].
    now apply (parse_refuses_raises py s g _ Hf) in E.
  - destruct Hpost as [He|[[_ ->]|[(t & _ & ->)|[Hpy ->]]]].
    + destruct Hend as [[E' _]|(pre & c & rest & _ & _ & E')]; rewrite E' in He;
        [discriminate|].
      injection He as <-. right; left. unfold t_error; eauto.
    + right; left. simpl; eauto.
    + right; left. simpl; eauto.
    + right; right. auto.
  - destruct Hend as [[E' _]|(pre & c & rest & _ & _ & E')]; rewrite E' in Hpost;
      discriminate.
Qed.

(** ** Properties of [parse] *)

Lemma parse_tokenize py s toks g :
  tokenize py s = (toks, LexEOF) -> parse py s g = parse_tokens py toks g.
Proof. intros H. unfold parse, parse_tokens. now rewrite H. Qed.

(** C1. What the code does with "Rd=Rs+Rt;", whatever the state of the
    name generator. The action of the binary operation leaves in its
    builder the ADD of the registers Rs and Rt into the temporary [t0] that
    the generator issues, whose name is none of the register names of the
    input. On Python 2.7 [parse] then returns a builder that holds exactly
    this ADD followed by the STORE of [t0] into the register Rd. On Python 3
    the debug message of that action raises [TypeError] once the ADD is
    built, and [parse] returns nothing. *)
Theorem parse_Rd_Rs_plus_Rt (g : nat) :
  exists t0 val,
    get_next g = (S g, Ok t0) /\
    ~ In t0 ["Rd"; "Rs"; "Rt"] /\
    p_expression_binop_builder (PyBuilder (mkTB [] (Some (Rreg "Rs"))))
                               (PyBuilder (mkTB [] (Some (Rreg "Rt")))) g =
      (S g, Ok (mkTB [mkInstr ADD [Rreg "Rs"; Rreg "Rt"] (Rtmp t0)] (Some (Rtmp t0)))) /\
    parse Python2 "Rd=Rs+Rt;" g =
      (S g, Returned (PyBuilder (mkTB
         [ mkInstr ADD [Rreg "Rs"; Rreg "Rt"] (Rtmp t0);
           mkInstr STR [Rtmp t0] (Rreg "Rd") ] val))) /\
    parse Python3 "Rd=Rs+Rt;" g = (S g, Raised TypeError).
Proof.
  exists ("t" ++ str_of_nat g), (Some (VBuilder (mkTB [] (Some (Rreg "Rd"))))).
  split; [reflexivity|]. split.
  - simpl. intros [H|[H|[H|[]]]]; discriminate H.
  - repeat split; reflexivity.
Qed.

(** C2. What the code does: whenever [parse] returns, the interpreter is
    one that formats objects, as Python 2.7 does (on Python 3 every input
    raises), and what is returned is the [HexagonTranslationBuilder] object
    of the start symbol, never the list of instructions; the caller has to
    read [_instructions] out of it. *)
Theorem parse_returns_builder (py : python) (s : string) (g g' : nat) (v : pyobj) :
  parse py s g = (g', Returned v) ->
  objects py = FormatsStr /\ (exists tb, v = PyBuilder tb) /\ (forall l, v <> PyList l).
Proof.
  intros H. destruct (parse_total py s g) as [(Hpy & l & val & E)|[(msg & E)|(_ & E)]];
    rewrite H in E; simpl in E; try discriminate E.
  injection E as ->. split; [assumption|]. split; [eauto|discriminate].
Qed.

Lemma parse_returns_builder_witness :
  parse Python2 "Rd=Rs+Rt;" 0 =
    (1, Returned (PyBuilder (mkTB
       [ mkInstr ADD [Rreg "Rs"; Rreg "Rt"] (Rtmp "t0");
         mkInstr STR [Rtmp "t0"] (Rreg "Rd") ]
       (Some (VBuilder (mkTB [] (Some (Rreg "Rd")))))))) /\
  (objects Python2 = FormatsStr /\
   (exists tb,
      PyBuilder (mkTB
       [ mkInstr ADD [Rreg "Rs"; Rreg "Rt"] (Rtmp "t0");
         mkInstr STR [Rtmp "t0"] (Rreg "Rd") ]
       (Some (VBuilder (mkTB [] (Some (Rreg "Rd")))))) = PyBuilder tb) /\
   (forall l,
      PyBuilder (mkTB
       [ mkInstr ADD [Rreg "Rs"; Rreg "Rt"] (Rtmp "t0");
         mkInstr STR [Rtmp "t0"] (Rreg "Rd") ]
       (Some (VBuilder (mkTB [] (Some (Rreg "Rd")))))) <> PyList l)).
Proof.
  split; [reflexivity|].
  apply (parse_returns_builder Python2 "Rd=Rs+Rt;" 0 1). reflexivity.
Defined.

(** C3. What the code does in [p_statementassign]: one STORE of the
    expression's value into the register operand is appended to the
    expression's instructions, and the value that is set afterwards is the
    builder object [p[1]] of the left-hand side, not its register operand.
    On Python 2.7 the action returns the builder so left; on Python 3 its
    debug message, which formats that value, raises [TypeError]. *)
Theorem p_statementassign_value (reg : ReilOperand) (tb1 tb3 : HexagonTranslationBuilder)
        (src : Value) (p2 : pyobj) (g : nat) :
  _value tb1 = Some (VOperand reg) ->
  _value tb3 = Some src ->
  exists tb,
    p_statementassign_builder (PyBuilder tb1) (PyBuilder tb3) g = (g, Ok tb) /\
    _instructions tb = (_instructions tb3 ++ [mkInstr STR [src] (VOperand reg)])%list /\
    _value tb = Some (VBuilder tb1) /\
    _value tb <> Some (VOperand reg) /\
    p_statementassign Python2 (PyBuilder tb1) p2 (PyBuilder tb3) g = (g, Ok (PyBuilder tb)) /\
    p_statementassign Python3 (PyBuilder tb1) p2 (PyBuilder tb3) g = (g, Raise TypeError).
Proof.
  intros H1 H3. destruct tb1 as [l1 v1], tb3 as [l3 v3]; simpl in H1, H3; subst.
  exists (mkTB (l3 ++ [mkInstr STR [src] (VOperand reg)])
               (Some (VBuilder (mkTB l1 (Some (VOperand reg)))))).
  split; [reflexivity|]. simpl. repeat split. discriminate.
Qed.

Lemma p_statementassign_value_witness :
  exists tb,
    p_statementassign_builder (PyBuilder (mkTB [] (Some (Rreg "Rd"))))
                              (PyBuilder (mkTB [] (Some (Rreg "Rs")))) 0 = (0, Ok tb) /\
    _instructions tb = ([] ++ [mkInstr STR [Rreg "Rs"] (Rreg "Rd")])%list /\
    _value tb = Some (VBuilder (mkTB [] (Some (Rreg "Rd")))) /\
    _value tb <> Some (Rreg "Rd") /\
    p_statementassign Python2 (PyBuilder (mkTB [] (Some (Rreg "Rd")))) (PyStr "=")
                      (PyBuilder (mkTB [] (Some (Rreg "Rs")))) 0 = (0, Ok (PyBuilder tb)) /\
    p_statementassign Python3 (PyBuilder (mkTB [] (Some (Rreg "Rd")))) (PyStr "=")
                      (PyBuilder (mkTB [] (Some (Rreg "Rs")))) 0 = (0, Raise TypeError).
Proof.
  apply (p_statementassign_value (ReilRegisterOperand "Rd" hexagon_size)
           (mkTB [] (Some (Rreg "Rd"))) (mkTB [] (Some (Rreg "Rs"))) (Rreg "Rs")
           (PyStr "=") 0); reflexivity.
Defined.


Lemma rep_match_all {A} p (s : string) : forall lo (k : string -> option A) x,
  all_in_class p s = true -> lo <= String.length s -> k "" = Some x ->
  rep_match p lo None s k = Some x.
Proof.
  induction s as [|c s IH]; intros lo k x Hall Hlo Hk.
  - simpl in *. destruct lo; [assumption|lia].
  - simpl in Hall. apply andb_true_iff in Hall as [Hc Hs].
    cbn [rep_match]. rewrite Hc. cbn [andb may_take dec_hi].
    rewrite (IH (pred lo) k x Hs ltac:(simpl in Hlo; lia) Hk). reflexivity.
Qed.

Lemma substring_all (s : string) : substring 0 (String.length s) s = s.
Proof. induction s; simpl; congruence. Qed.

Lemma first_match_0x (py : python) (ds : string) :
  ds <> "" -> all_in_class hexdigit ds = true ->
  first_match (master py) ("0x" ++ ds) = Some (t_IMM, "0x" ++ ds, "").
Proof.
  intros Hne Hall.
  assert (Hlen : 1 <= String.length ds) by (destruct ds; simpl; [congruence|lia]).
  assert (E : match_rest imm_pattern ("0x" ++ ds) = Some "").
  { unfold match_rest, imm_pattern. cbn [re_match append strip_prefix].
    cbn [Ascii.eqb Bool.eqb].
    now rewrite (rep_match_all hexdigit ds 1 (fun rest => Some rest) "" Hall Hlen eq_refl). }
  unfold master. cbn [app first_match].
  assert (R : match_rest
                (Seq (Cls [one "R"; one "P"; one "N"; one "M"; one "C"]%char)
                     (Seq (Rep (word py) 1 (Some 2)) (Opt (Lit ".new"))))
                ("0x" ++ ds) = None) by reflexivity.
  cbn [match_rest] in R |- *.
  change (match_rest (Rep [one "010"%char] 1 None) ("0x" ++ ds)) with (@None string).
  cbv iota.
  change (match_rest (Lit "*EA") ("0x" ++ ds)) with (@None string). cbv iota.
  change (match_rest (Lit "EA") ("0x" ++ ds)) with (@None string). cbv iota.
  rewrite R, E.
  replace (String.length ("0x" ++ ds) - String.length "") with (String.length ("0x" ++ ds))
    by (simpl; lia).
  rewrite substring_all.
  reflexivity.
Qed.

Lemma tokenize_0x (py : python) (ds : string) :
  ds <> "" -> all_in_class hexdigit ds = true ->
  tokenize py ("0x" ++ ds) = ([mkTok IMM (PyInt (hex_value ds))], LexEOF).
Proof.
  intros Hne Hall. unfold tokenize.
  change (String.length ("0x" ++ ds)) with (S (S (String.length ds))).
  change ("0x" ++ ds) with (String "0" (String "x" ds)).
  cbn [token_stream].
  change (is_ignored "0") with false. cbv iota.
  change (String "0" (String "x" ds)) with ("0x" ++ ds).
  rewrite (first_match_0x py ds Hne Hall).
  destruct (t_IMM_value ds 1 Hne Hall) as [-> _]. reflexivity.
Qed.

(** C5. Every immediate is read in base 16 once an optional "0x" is
    stripped, on either interpreter: for a non-empty run [ds] of hexadecimal
    digits, [t_IMM] gives the same token for "0x"[ds] and for [ds], with the
    hexadecimal value of [ds], and "0x"[ds] lexes to that single token. In
    particular "0x1F" and "1F" both lex to the immediate 31, and "10" lexes
    to 16. *)
Theorem imm_hexadecimal (py : python) (ds : string) (lineno : nat) :
  ds <> "" -> all_in_class hexdigit ds = true ->
  (rule_action t_IMM ("0x" ++ ds) lineno =
     (lineno, inr (Some (mkTok IMM (PyInt (hex_value ds))))) /\
   rule_action t_IMM ds lineno =
     (lineno, inr (Some (mkTok IMM (PyInt (hex_value ds))))) /\
   tokenize py ("0x" ++ ds) = ([mkTok IMM (PyInt (hex_value ds))], LexEOF)) /\
  (tokenize py "0x1F" = ([mkTok IMM (PyInt 31)], LexEOF) /\
   tokenize py "1F" = ([mkTok IMM (PyInt 31)], LexEOF) /\
   tokenize py "10" = ([mkTok IMM (PyInt 16)], LexEOF)).
Proof.
  intros Hne Hall. split; [|destruct py as [[] f]; repeat split; reflexivity].
  destruct (t_IMM_value ds lineno Hne Hall) as [E1 E2].
  repeat split; auto using tokenize_0x.
Qed.

Lemma imm_hexadecimal_witness :
  (rule_action t_IMM "0x1F" 1 = (1, inr (Some (mkTok IMM (PyInt 31)))) /\
   rule_action t_IMM "1F" 1 = (1, inr (Some (mkTok IMM (PyInt 31)))) /\
   tokenize Python3 "0x1F" = ([mkTok IMM (PyInt 31)], LexEOF)) /\
  (tokenize Python3 "0x1F" = ([mkTok IMM (PyInt 31)], LexEOF) /\
   tokenize Python3 "1F" = ([mkTok IMM (PyInt 31)], LexEOF) /\
   tokenize Python3 "10" = ([mkTok IMM (PyInt 16)], LexEOF)).
Proof.
  apply (imm_hexadecimal Python3 "1F" 1); [discriminate | reflexivity].
Defined.

(** No input whose token stream holds an immediate is ever parsed. *)
Lemma imm_never_parses (py : python) (s : string) (g : nat) (t : LexToken) :
  In t (fst (tokenize py s)) -> tok_type t = IMM ->
  (exists msg, snd (parse py s g) = Raised (UnknownBehaviorException msg)) \/
  (objects py = RefusesSpec /\ snd (parse py s g) = Raised TypeError).
Proof.
  intros Hin Hty.
  destruct (parse_total py s g) as [(_ & l & val & E)|H]; [|assumption].
  exfalso. destruct (parse_spec py s g) as (toks & e & Htok & _ & Hpost).
  rewrite Htok in Hin; simpl in Hin. rewrite E in Hpost. simpl in Hpost.
  destruct Hpost as (_ & Hall & _). rewrite Forall_forall in Hall.
  exact (Hall t Hin Hty).
Qed.

(** C6, as the code has it. An immediate is lexed but no production takes
    it: whenever the token stream of the input holds an IMM token, [parse]
    returns nothing. It raises [UnknownBehaviorException], or, on Python 3,
    the [TypeError] of the debug message of a statement that is reduced
    before the parser comes to the immediate. *)
Theorem immediate_not_an_expression (py : python) (s : string) (g : nat) (t : LexToken) :
  In t (fst (tokenize py s)) -> tok_type t = IMM ->
  (exists msg, snd (parse py s g) = Raised (UnknownBehaviorException msg)) \/
  (objects py = RefusesSpec /\ snd (parse py s g) = Raised TypeError).
Proof. apply imm_never_parses. Qed.

Lemma immediate_not_an_expression_witness :
  (exists msg, snd (parse Python3 "Rd=1F;" 0) = Raised (UnknownBehaviorException msg)) \/
  (objects Python3 = RefusesSpec /\ snd (parse Python3 "Rd=1F;" 0) = Raised TypeError).
Proof.
  apply (immediate_not_an_expression Python3 "Rd=1F;" 0 (mkTok IMM (PyInt 31))).
  - simpl. auto.
  - reflexivity.
Defined.

(** C6 as stated fails: on either interpreter "Rd=1F;" is rejected at the
    immediate, and no input whose tokens hold an immediate is parsed. *)
Lemma immediate_expression_rejected :
  (forall py,
     parse py "Rd=1F;" 0 = (0, Raised (UnknownBehaviorException "Syntax error at 31"))) /\
  ~ (exists py s g t v, In t (fst (tokenize py s)) /\ tok_type t = IMM /\
                        snd (parse py s g) = Returned v).
Proof.
  split; [intros [[] []]; reflexivity|].
  intros (py & s & g & t & v & Hin & Hty & E).
  destruct (imm_never_parses py s g t Hin Hty) as [(msg & E')|(_ & E')];
    rewrite E in E'; discriminate E'.
Qed.

(** C7, as the code has it. With register names on both sides of the two
    assignments, the STORE of the first statement is built first: its
    action leaves the STORE of [b] into [a] in its builder. On Python 2.7
    [parse] returns the two STOREs, the one of the first statement strictly
    before the one of the second, for the token sequence [a = b ; c = d ;]
    with any register names and for the text "Ra=Rb;Rc=Rd;". On Python 3
    the debug message of the first assignment raises [TypeError] and
    nothing is returned. *)
Theorem stores_in_statement_order (a b c d : string) (g : nat) :
  let toks := [tok_REG a; tok_EQUALS; tok_REG b; tok_SEMI;
               tok_REG c; tok_EQUALS; tok_REG d; tok_SEMI] in
  (exists val,
     p_statementassign_builder (PyBuilder (mkTB [] (Some (Rreg a))))
                               (PyBuilder (mkTB [] (Some (Rreg b)))) g =
       (g, Ok (mkTB [mkInstr STR [Rreg b] (Rreg a)] val))) /\
  (exists val,
     parse_tokens Python2 toks g =
       (g, Returned (PyBuilder (mkTB
          [ mkInstr STR [Rreg b] (Rreg a); mkInstr STR [Rreg d] (Rreg c) ] val)))) /\
  (exists val,
     parse Python2 "Ra=Rb;Rc=Rd;" g =
       (g, Returned (PyBuilder (mkTB
          [ mkInstr STR [Rreg "Rb"] (Rreg "Ra");
            mkInstr STR [Rreg "Rd"] (Rreg "Rc") ] val)))) /\
  parse_tokens Python3 toks g = (g, Raised TypeError) /\
  parse Python3 "Ra=Rb;Rc=Rd;" g = (g, Raised TypeError).
Proof.
  cbv zeta. split; [exists (Some (VBuilder (mkTB [] (Some (Rreg a))))); reflexivity|].
  do 2 (split; [eexists; reflexivity|]). split; reflexivity.
Qed.

(** C7 as stated fails: in "A=B;C=D;" the letters are hexadecimal digits,
    not register names, and the first token is rejected, on either
    interpreter. *)
Lemma A_B_C_D_rejected :
  (forall py,
     tokenize py "A=B;C=D;" =
       ([mkTok IMM (PyInt 10); tok_EQUALS; mkTok IMM (PyInt 11); tok_SEMI;
         mkTok IMM (PyInt 12); tok_EQUALS; mkTok IMM (PyInt 13); tok_SEMI], LexEOF)) /\
  (forall py,
     parse py "A=B;C=D;" 0 = (0, Raised (UnknownBehaviorException "Syntax error at 10"))).
Proof. split; intros [[] []]; reflexivity. Qed.

Lemma all_chars_In f s c :
  all_chars f s = true -> In c (list_ascii_of_string s) -> f c = true.
Proof.
  induction s as [|a s IH]; simpl; [contradiction|].
  rewrite andb_true_iff. intros [Ha Hs] [<-|Hin]; auto.
Qed.

(** C8, as the code has it. An input that holds a character which no lexer
    rule mentions is never parsed: lexing stops with [t_error] at a position
    no later than that character, and [parse] raises the illegal-character
    error of that position, or the syntax error of a token lexed before it,
    or, on Python 3, the [TypeError] of the debug message of a statement
    that is reduced before the lexer comes to that position. *)
Theorem illegal_character_aborts (py : python) (s : string) (g : nat) (c : ascii) :
  In c (list_ascii_of_string s) -> unmatched_char py c = true ->
  exists toks pre c' rest,
    tokenize py s = (toks, LexRaise (t_error (String c' rest))) /\
    s = pre ++ String c' rest /\
    all_chars (fun a => negb (unmatched_char py a)) pre = true /\
    (snd (parse py s g) = Raised (t_error (String c' rest)) \/
     (exists t, In t toks /\ snd (parse py s g) = Raised (p_error (Some t))) \/
     (objects py = RefusesSpec /\ snd (parse py s g) = Raised TypeError)).
Proof.
  intros Hin Hc.
  destruct (parse_spec py s g) as (toks & e & Htok & [_ Hend] & Hpost).
  destruct Hend as [[_ Hall]|(pre & c' & rest & Hs & Hpre & ->)].
  - apply (all_chars_In _ _ _ Hall) in Hin. rewrite Hc in Hin. discriminate Hin.
  - exists toks, pre, c', rest. repeat split; auto.
    destruct (snd (parse py s g)) as [v|x|]; simpl in Hpost.
    + destruct Hpost as [E _]; discriminate E.
    + destruct Hpost as [E|[[E _]|[(t & Ht & ->)|[Hpy ->]]]]; try discriminate E.
      * injection E as <-. now left.
      * right; left; eauto.
      * right; right; auto.
    + discriminate Hpost.
Qed.

Lemma illegal_character_aborts_witness :
  parse Python3 "Rd=Rs@Rt;" 0 =
    (0, Raised (UnknownBehaviorException "Illegal character @ in: @Rt;")) /\
  exists toks pre c' rest,
    tokenize Python3 "Rd=Rs@Rt;" = (toks, LexRaise (t_error (String c' rest))) /\
    "Rd=Rs@Rt;" = pre ++ String c' rest /\
    all_chars (fun a => negb (unmatched_char Python3 a)) pre = true /\
    (snd (parse Python3 "Rd=Rs@Rt;" 0) = Raised (t_error (String c' rest)) \/
     (exists t, In t toks /\ snd (parse Python3 "Rd=Rs@Rt;" 0) = Raised (p_error (Some t))) \/
     (objects Python3 = RefusesSpec /\ snd (parse Python3 "Rd=Rs@Rt;" 0) = Raised TypeError)).
Proof.
  split; [reflexivity|].
  apply (illegal_character_aborts Python3 "Rd=Rs@Rt;" 0 "@"%char).
  - simpl. tauto.
  - reflexivity.
Defined.

(** C8 as stated fails. In "1@" the character '@' is matched by no rule,
    yet on either interpreter the exception is the syntax error of the
    token before it and does not mention '@'. In "Rd;@", on Python 3, it is
    the [TypeError] of the statement before it. *)
Lemma syntax_error_before_illegal_character :
  In "@"%char (list_ascii_of_string "1@") /\
  (forall py, unmatched_char py "@" = true) /\
  (forall py,
     parse py "1@" 0 = (0, Raised (UnknownBehaviorException "Syntax error at 1"))) /\
  (forall rest, UnknownBehaviorException "Syntax error at 1" <> t_error rest) /\
  parse Python3 "Rd;@" 0 = (0, Raised TypeError).
Proof.
  split; [simpl; auto|]. split; [intros [[] f]; reflexivity|].
  split; [intros [[] []]; reflexivity|]. split; [|reflexivity].
  intros rest H. unfold t_error in H. discriminate H.
Qed.

Lemma value_after_calls (calls : list builder_call) : forall tb,
  _value (fold_left do_call calls tb) = _value tb.
Proof.
  induction calls as [|c calls IH]; intros tb; [reflexivity|].
  simpl. rewrite IH. destruct c; reflexivity.
Qed.

(** C9. On a freshly constructed builder, whatever calls other than
    [set_value] were made on it, [get_value] raises [UnexpectedException]
    and returns nothing. *)
Theorem get_value_before_set_value (calls : list builder_call) (g : nat) :
  get_value (fold_left do_call calls new_builder) g = (g, Raise UnexpectedException).
Proof.
  unfold get_value. rewrite value_after_calls. reflexivity.
Qed.

Lemma instr_width_ok_operands i x :
  instr_width_ok i = true -> In x (operands i) ->
  exists o, x = VOperand o /\ operand_size o = 32.
Proof.
  destruct i as [m srcs dst]; simpl. rewrite andb_true_iff. intros [Hs Hd] Hin.
  assert (H : is_operand32 x = true).
  { apply in_app_or in Hin as [Hin|[<-|[]]]; [|assumption].
    rewrite forallb_forall in Hs. auto. }
  destruct x as [o|tb]; simpl in H; [|discriminate H].
  exists o; split; [reflexivity|]. now apply Nat.eqb_eq in H.
Qed.

(** C10. The one width is [hexagon_size = 32]. The register operand that
    [p_register_reg] builds for a REG token has it; the temporary that the
    action of a binary operation allocates and makes the destination of its
    ADD has it, whatever the two operands; and on either interpreter, in
    whatever [parse] returns, every operand of every instruction is an
    operand of width 32. *)
Theorem operands_have_hexagon_size :
  hexagon_size = 32 /\
  (forall name g, p_register_reg (PyStr name) g =
     (g, Ok (PyBuilder (mkTB [] (Some (VOperand (ReilRegisterOperand name 32))))))) /\
  (forall l1 l3 v1 v3 g, exists name,
     p_expression_binop_builder (PyBuilder (mkTB l1 (Some v1)))
                                (PyBuilder (mkTB l3 (Some v3))) g =
       (S g, Ok (mkTB
          (l1 ++ l3 ++ [mkInstr ADD [v1; v3] (VOperand (ReilTemporaryOperand name 32))])
          (Some (VOperand (ReilTemporaryOperand name 32)))))) /\
  (forall py s g g' v,
     parse py s g = (g', Returned v) ->
     exists tb, v = PyBuilder tb /\
       forall i x, In i (get_instructions tb) -> In x (operands i) ->
                   exists o, x = VOperand o /\ operand_size o = 32).
Proof.
  split; [reflexivity|]. split; [reflexivity|]. split.
  - intros l1 l3 v1 v3 g. exists ("t" ++ str_of_nat g).
    unfold p_expression_binop_builder, bind, as_builder, ret, temporal, get_next,
      get_value, extend_instructions, add, set_value, gen_add. cbn.
    now rewrite <- app_assoc.
  - intros py s g g' v H.
    destruct (parse_spec py s g) as (toks & e & _ & _ & Hpost).
    rewrite H in Hpost. simpl in Hpost.
    destruct Hpost as (_ & _ & l & val & -> & Hl).
    exists (mkTB l val); split; [reflexivity|].
    intros i x Hi Hx. simpl in Hi. rewrite forallb_forall in Hl.
    eapply instr_width_ok_operands; eauto.
Qed.

Lemma operands_have_hexagon_size_witness :
  exists tb,
    parse Python2 "Rd=Rs+Rt;" 0 = (1, Returned (PyBuilder tb)) /\
    forall i x, In i (get_instructions tb) -> In x (operands i) ->
                exists o, x = VOperand o /\ operand_size o = 32.
Proof.
  destruct operands_have_hexagon_size as (_ & _ & _ & H).
  destruct (H Python2 "Rd=Rs+Rt;" 0 1
              (PyBuilder (mkTB
                 [ mkInstr ADD [Rreg "Rs"; Rreg "Rt"] (Rtmp "t0");
                   mkInstr STR [Rtmp "t0"] (Rreg "Rd") ]
                 (Some (VBuilder (mkTB [] (Some (Rreg "Rd")))))))
              eq_refl) as (tb & E & Hw).
  exists tb. split; [|exact Hw]. rewrite <- E. reflexivity.
Defined.

(** ** Further properties of the lexer *)

Lemma rep_match_zero {A} p (s : string) : forall hi (k : string -> option A),
  (forall rest, k rest <> None) -> rep_match p 0 hi s k <> None.
Proof.
  induction s as [|c s IH]; intros hi k Hk; simpl; [apply Hk|].
  destruct (in_class p c && may_take hi); [|apply Hk].
  destruct (rep_match p 0 (dec_hi hi) s k) eqn:E; [discriminate|apply Hk].
Qed.

Lemma newline_rule_matches (s : string) :
  exists rest, match_rest (Rep [one "010"%char] 1 None) (String "010" s) = Some rest.
Proof.
  unfold match_rest. cbn [re_match rep_match].
  change (in_class [one "010"%char] "010" && may_take None) with true. cbv iota.
  cbn [pred dec_hi].
  destruct (rep_match [one "010"%char] 0 None s (fun rest => Some rest)) as [rest|] eqn:E.
  - eauto.
  - exfalso. revert E. apply rep_match_zero. discriminate.
Qed.

Lemma is_blank_newline c : is_blank c = true -> is_ignored c = false -> c = "010"%char.
Proof.
  unfold is_blank. intros H Hi. rewrite Hi in H. simpl in H. now apply Ascii.eqb_eq in H.
Qed.

Lemma token_stream_blank (py : python) fuel : forall lineno s,
  String.length s < fuel -> all_chars is_blank s = true ->
  token_stream py fuel lineno s = ([], LexEOF).
Proof.
  induction fuel as [|fuel IH]; intros lineno s Hlen Hall; [lia|].
  destruct s as [|c s]; [reflexivity|].
  simpl in Hlen, Hall. apply andb_true_iff in Hall as [Hc Hs].
  cbn [token_stream]. destruct (is_ignored c) eqn:Hi.
  - apply IH; [lia|assumption].
  - apply is_blank_newline in Hc; [subst c|assumption].
    destruct (newline_rule_matches s) as (rest & E).
    unfold master. cbn [app first_match]. rewrite E.
    destruct (match_rest_sound _ _ _ E) as (lx & Hlx & M).
    pose proof (matches_min_length _ _ M) as Hmin. simpl in Hmin.
    assert (Hrest : String.length rest < fuel).
    { apply (f_equal String.length) in Hlx. rewrite length_append in Hlx.
      simpl in Hlx. lia. }
    assert (Hb : all_chars is_blank rest = true).
    { assert (H : all_chars is_blank (lx ++ rest) = true)
        by (rewrite <- Hlx; simpl; rewrite Hs; reflexivity).
      rewrite all_chars_append in H. now apply andb_true_iff in H as [_ H]. }
    cbn [rule_action]. apply IH; assumption.
Qed.

(** X1. An input made of blanks only (spaces, tabs, form feeds, newlines;
    the empty input too) has no token, and [parse] raises the syntax error
    of the end of input, leaving the name generator as it was. *)
Theorem blank_input_is_a_syntax_error (py : python) (s : string) (g : nat) :
  all_chars is_blank s = true ->
  tokenize py s = ([], LexEOF) /\
  parse py s g = (g, Raised (UnknownBehaviorException "Syntax error at EOF")).
Proof.
  intros H.
  assert (E : tokenize py s = ([], LexEOF)) by (apply token_stream_blank; [lia|assumption]).
  split; [assumption|]. unfold parse. rewrite E. reflexivity.
Qed.

Lemma blank_input_is_a_syntax_error_witness :
  tokenize Python3 (String " " (String "010" (String "009" ""))) = ([], LexEOF) /\
  parse Python3 (String " " (String "010" (String "009" ""))) 3 =
    (3, Raised (UnknownBehaviorException "Syntax error at EOF")).
Proof.
  apply (blank_input_is_a_syntax_error Python3 (String " " (String "010" (String "009" ""))) 3).
  reflexivity.
Defined.

(** ** Further properties of the parser *)

Lemma action_shift_in_grammar s ty s' :
  action s (Some ty) = Some (Shift s') -> in_grammar ty = true.
Proof. destruct s, ty; simpl; intros H; try discriminate H; reflexivity. Qed.

Lemma lr_parse_returned_tokens (py : python) e fuel : forall st toks g g' v,
  lr_parse py fuel st toks e g = (g', Returned v) ->
  Forall (fun t => in_grammar (tok_type t) = true) toks.
Proof.
  induction fuel as [|fuel IH]; intros st toks g g' v H; [discriminate H|].
  cbn [lr_parse] in H. unfold lr_step in H.
  destruct toks as [|t toks].
  - constructor.
  - cbn [hd_error option_map] in H.
    destruct (action (current_state st) (Some (tok_type t))) as [[s'|p|]|] eqn:Ha.
    + constructor; [eapply action_shift_in_grammar; eauto|eapply IH; eauto].
    + destruct (reduce py p st g) as [g1 [st1|x]]; [eapply IH; eauto|discriminate H].
    + apply action_accept in Ha as [_ Ha]. discriminate Ha.
    + discriminate H.
Qed.

(** X2. Only register names, the binary operators, the assignment
    operators and the semicolon are ever accepted: an input in which the
    lexer finds any other token (a parenthesis, a brace, [++], [--], [?],
    a comma, a period, a colon, [EA], [*EA], an immediate) is never parsed.
    [parse] raises [UnknownBehaviorException], or, on Python 3, the
    [TypeError] of the debug message of a statement that is reduced before
    the parser comes to that token. *)
Theorem only_grammar_tokens_are_parsed (py : python) (s : string) (g : nat) (t : LexToken) :
  In t (fst (tokenize py s)) -> in_grammar (tok_type t) = false ->
  (exists msg, snd (parse py s g) = Raised (UnknownBehaviorException msg)) \/
  (objects py = RefusesSpec /\ snd (parse py s g) = Raised TypeError).
Proof.
  intros Hin Hty.
  destruct (parse_total py s g) as [(_ & l & val & E)|H]; [|assumption].
  exfalso. unfold parse in E. destruct (tokenize py s) as [toks e]. simpl in Hin.
  destruct (lr_parse py (parse_fuel toks) [] toks e g) as [g' o] eqn:Hp. simpl in E. subst o.
  apply lr_parse_returned_tokens in Hp. rewrite Forall_forall in Hp.
  specialize (Hp t Hin). congruence.
Qed.

Lemma only_grammar_tokens_are_parsed_witness :
  (exists msg, snd (parse Python3 "Rd=(Rs+Rt);" 0) = Raised (UnknownBehaviorException msg)) \/
  (objects Python3 = RefusesSpec /\ snd (parse Python3 "Rd=(Rs+Rt);" 0) = Raised TypeError).
Proof.
  apply (only_grammar_tokens_are_parsed Python3 "Rd=(Rs+Rt);" 0 (mkTok LPAREN (PyStr "("))).
  - simpl. tauto.
  - reflexivity.
Defined.

Lemma callable_counter (py : python) p args g g' r :
  callable py p args g = (g', r) -> g <= g' <= S g.
Proof.
  unfold callable, p_statement_expr, p_statemenlist, p_statement_list_2,
    p_statement_statementassign, p_expression_register, p_register_reg,
    p_statementassign, p_expression_binop, p_statementassign_builder,
    p_expression_binop_builder, temporal, get_next, get_value, as_builder,
    bind, ret, raise.
  intros H.
  destruct p; destruct args as [|a1 [|a2 [|a3 [|a4 args]]]];
    try (injection H as <- _; lia);
    destruct a1; try (destruct py as [w []]; cbn in H; injection H as <- _; lia);
    try (destruct a3; try (injection H as <- _; lia));
    repeat match goal with tb : HexagonTranslationBuilder |- _ => destruct tb as [? [?|]] end;
    try (simpl in H; injection H as <- _; lia);
    destruct py as [w []]; try destruct a2; cbn in H; injection H as <- _; lia.
Qed.

Lemma reduce_counter (py : python) p st g g' r : reduce py p st g = (g', r) -> g <= g' <= S g.
Proof.
  unfold reduce. destruct (pop_args (prod_len p) st []) as [[args st']|].
  - unfold bind. destruct (callable py p args g) as [g1 [v|x]] eqn:E.
    + apply callable_counter in E.
      destruct (goto (current_state st') (prod_name p)); intros H; injection H as <- _; lia.
    + apply callable_counter in E. intros H; injection H as <- _; lia.
  - intros H; injection H as <- _; lia.
Qed.

Lemma lr_parse_counter (py : python) e fuel : forall st toks g,
  g <= fst (lr_parse py fuel st toks e g).
Proof.
  induction fuel as [|fuel IH]; intros st toks g; [simpl; lia|].
  cbn [lr_parse]. unfold lr_step.
  destruct toks as [|t toks]; [destruct e; simpl; try lia|]; cbn [hd_error option_map].
  - destruct (action (current_state st) None) as [[s'|p|]|]; simpl; try lia.
    destruct (reduce py p st g) as [g1 [st1|x]] eqn:E; apply reduce_counter in E; simpl; [|lia].
    specialize (IH st1 [] g1). lia.
  - destruct (action (current_state st) (Some (tok_type t))) as [[s'|p|]|]; simpl; try lia.
    + apply IH.
    + destruct (reduce py p st g) as [g1 [st1|x]] eqn:E; apply reduce_counter in E; simpl; [|lia].
      specialize (IH st1 (t :: toks) g1). lia.
Qed.

Lemma parse_counter (py : python) (s : string) (g : nat) : g <= fst (parse py s g).
Proof. unfold parse. destruct (tokenize py s) as [toks e]. apply lr_parse_counter. Qed.

(** X3. [parse] comes to an end on every input and every state of the name
    generator. Where objects are formatted, as on Python 2.7, it returns a
    builder or raises [UnknownBehaviorException]. Where they are not, as on
    Python 3, it never returns: it raises [UnknownBehaviorException] or the
    [TypeError] of a debug message. No other exception
    ([UnexpectedException] of [get_value], an attribute, index or key
    error) escapes from it, and the counter of the name generator does not
    go back. *)
Theorem parse_returns_or_raises (py : python) (s : string) (g : nat) :
  exists g', g <= g' /\
    ((objects py = FormatsStr /\ exists tb, parse py s g = (g', Returned (PyBuilder tb))) \/
     (exists msg, parse py s g = (g', Raised (UnknownBehaviorException msg))) \/
     (objects py = RefusesSpec /\ parse py s g = (g', Raised TypeError))).
Proof.
  exists (fst (parse py s g)). split.
  - apply parse_counter.
  - destruct (parse_total py s g) as [(Hpy & l & val & E)|[(msg & E)|(Hpy & E)]];
      destruct (parse py s g) as [g' o]; simpl in *; subst o; eauto 6.
Qed.

(** ** The order of the lexer rules *)


Lemma token_stream_fuel (py : python) f1 : forall f2 l1 l2 s,
  String.length s < f1 -> String.length s < f2 ->
  token_stream py f1 l1 s = token_stream py f2 l2 s.
Proof.
  induction f1 as [|f1 IH]; intros f2 l1 l2 s H1 H2; [lia|].
  destruct f2 as [|f2]; [lia|].
  destruct s as [|c s]; [reflexivity|]. simpl in H1, H2.
  cbn [token_stream]. destruct (is_ignored c).
  - apply IH; lia.
  - destruct (first_match (master py) (String c s)) as [[[r lexeme] rest]|] eqn:Hm; [|reflexivity].
    destruct (first_match_sound _ _ _ _ _ Hm) as (re & Hin & M & Hs).
    pose proof (matches_min_length _ _ M) as Hmin.
    pose proof (master_min_length py _ _ Hin) as Hone.
    assert (Hrest : String.length rest < String.length (String c s)).
    { rewrite Hs, length_append. lia. }
    simpl in Hrest.
    destruct r; cbn [rule_action];
      try (rewrite (IH f2 l1 l2 rest) by lia; reflexivity).
    + rewrite (IH f2 (l1 + count_newlines lexeme) (l2 + count_newlines lexeme) rest) by lia.
      reflexivity.
    + destruct (int_base16 (re_sub_0x lexeme)); [|reflexivity].
      rewrite (IH f2 l1 l2 rest) by lia. reflexivity.
Qed.

Lemma token_stream_cons (py : python) fuel lineno c s :
  token_stream py (S fuel) lineno (String c s) =
  if is_ignored c then token_stream py fuel lineno s
  else match first_match (master py) (String c s) with
       | Some (r, lexeme, rest) =>
           match rule_action r lexeme lineno with
           | (lineno', inr (Some tok)) =>
               let (toks, e) := token_stream py fuel lineno' rest in (tok :: toks, e)
           | (lineno', inr None) => token_stream py fuel lineno' rest
           | (_, inl e) => ([], LexRaise e)
           end
       | None => ([], LexRaise (t_error (String c s)))
       end.
Proof. reflexivity. Qed.

Lemma tokenize_first (py : python) (s : string) r lexeme rest tok lineno :
  first_match (master py) s = Some (r, lexeme, rest) ->
  (forall c s', s = String c s' -> is_ignored c = false) ->
  rule_action r lexeme 1 = (lineno, inr (Some tok)) ->
  tokenize py s = (tok :: fst (tokenize py rest), snd (tokenize py rest)).
Proof.
  intros Hm Hi Ha.
  destruct (first_match_sound _ _ _ _ _ Hm) as (re & Hin & M & Hs).
  pose proof (matches_min_length _ _ M) as Hmin.
  pose proof (master_min_length py _ _ Hin) as Hone.
  destruct s as [|c s]; [destruct lexeme; simpl in *; [lia|discriminate Hs]|].
  unfold tokenize at 1. rewrite token_stream_cons.
  rewrite (Hi c s eq_refl), Hm, Ha.
  assert (Hrest : String.length rest < String.length (String c s)).
  { rewrite Hs, length_append. lia. }
  rewrite (token_stream_fuel py _ (S (String.length rest)) lineno 1 rest) by (simpl in *; lia).
  unfold tokenize. destruct (token_stream py (S (String.length rest)) 1 rest). reflexivity.
Qed.

(** X5. The effective-address tokens: whatever follows, the text "*EA" is
    one MEM_ACCESS token whose value is "EA" (not a TIMES followed by a
    register), and the text "EA" is one REG_EA token; the rest of the input
    is lexed after them. *)
Theorem effective_address_tokens (py : python) (rest : string) :
  tokenize py ("*EA" ++ rest) =
    (mkTok MEM_ACCESS (PyStr "EA") :: fst (tokenize py rest), snd (tokenize py rest)) /\
  tokenize py ("EA" ++ rest) =
    (mkTok REG_EA (PyStr "EA") :: fst (tokenize py rest), snd (tokenize py rest)).
Proof.
  split.
  - apply (tokenize_first py _ t_MEM_ACCESS "*EA" rest _ 1); [| |reflexivity].
    + unfold master. cbn [app first_match].
      change (match_rest (Rep [one "010"%char] 1 None) ("*EA" ++ rest)) with (@None string).
      change (match_rest (Lit "*EA") ("*EA" ++ rest)) with (Some rest).
      cbv iota. now rewrite (substring_prefix "*EA" rest).
    + intros c s' H. injection H as <- _. reflexivity.
  - apply (tokenize_first py _ t_REG_EA "EA" rest _ 1); [| |reflexivity].
    + unfold master. cbn [app first_match].
      change (match_rest (Rep [one "010"%char] 1 None) ("EA" ++ rest)) with (@None string).
      change (match_rest (Lit "*EA") ("EA" ++ rest)) with (@None string).
      change (match_rest (Lit "EA") ("EA" ++ rest)) with (Some rest).
      cbv iota. now rewrite (substring_prefix "EA" rest).
    + intros c s' H. injection H as <- _. reflexivity.
Qed.

(** X6. Ignored characters (space, tab, form feed) in front of an input
    change neither its tokens nor the result of [parse]. *)
Theorem leading_ignored_characters (py : python) (ws s : string) (g : nat) :
  all_chars is_ignored ws = true ->
  tokenize py (ws ++ s) = tokenize py s /\ parse py (ws ++ s) g = parse py s g.
Proof.
  intros H.
  assert (E : tokenize py (ws ++ s) = tokenize py s).
  { induction ws as [|c ws IH]; [reflexivity|].
    simpl in H. apply andb_true_iff in H as [Hc Hws].
    rewrite <- (IH Hws). unfold tokenize at 1. cbn [append].
    rewrite token_stream_cons, Hc. apply token_stream_fuel; simpl; lia. }
  split; [assumption|]. unfold parse. now rewrite E.
Qed.

Lemma leading_ignored_characters_witness :
  tokenize Python3 ("  " ++ "Rd=Rs;") = tokenize Python3 "Rd=Rs;" /\
  parse Python3 ("  " ++ "Rd=Rs;") 0 = parse Python3 "Rd=Rs;" 0.
Proof. apply (leading_ignored_characters Python3 "  " "Rd=Rs;" 0). reflexivity. Defined.

Lemma strip_prefix_prefix l s : strip_prefix l s = None <-> prefix l s = false.
Proof.
  revert s; induction l as [|a l IH]; intros s; destruct s as [|b s]; simpl;
    try (split; discriminate); try tauto.
  - destruct (Ascii.eqb_spec a b) as [->|Hne].
    + destruct (ascii_dec b b); [apply IH|congruence].
    + destruct (ascii_dec a b); [contradiction|tauto].
Qed.

Lemma prefix_append l s : prefix l s = true -> exists rest, s = l ++ rest.
Proof.
  intros H. destruct (strip_prefix l s) as [rest|] eqn:E.
  - exists rest. now apply strip_prefix_sound.
  - apply strip_prefix_prefix in E. congruence.
Qed.

Lemma prefix_of_append a b s1 s2 :
  a ++ s1 = b ++ s2 -> String.length a <= String.length b -> prefix a b = true.
Proof.
  revert b; induction a as [|x a IH]; intros b H Hlen; [destruct b; reflexivity|].
  destruct b as [|y b]; simpl in *; [lia|].
  injection H as -> H. destruct (ascii_dec y y); [|congruence].
  apply IH; [assumption|lia].
Qed.

Lemma In_insert_by_length x y l : In x (insert_by_length y l) <-> x = y \/ In x l.
Proof.
  induction l as [|z l IH]; simpl; [intuition|].
  destruct (Nat.leb _ _); simpl; [intuition|]. rewrite IH. intuition.
Qed.

Lemma In_sort_by_length x l : In x (sort_by_length l) <-> In x l.
Proof.
  induction l as [|y l IH]; simpl; [tauto|].
  rewrite In_insert_by_length, IH. intuition.
Qed.

Lemma first_match_app l1 l2 s :
  first_match (l1 ++ l2) s =
  match first_match l1 s with
  | Some x => Some x
  | None => first_match l2 s
  end.
Proof.
  induction l1 as [|[r re] l1 IH]; simpl; [reflexivity|].
  destruct (match_rest re s); [reflexivity|apply IH].
Qed.

Lemma first_match_string_rules (l : list (token_type * string)) s ty lexeme rest :
  no_shadow l = true ->
  first_match (map (fun r => (t_string (fst r), Lit (unescape (snd r)))) l) s =
    Some (t_string ty, lexeme, rest) ->
  forall r', In r' l -> prefix (rule_text r') s = true ->
             String.length (rule_text r') <= String.length lexeme.
Proof.
  induction l as [|r0 l IH]; intros Hns Hm r' Hin Hp; [destruct Hin|].
  simpl in Hns. apply andb_true_iff in Hns as [H0 Hns].
  cbn [map first_match] in Hm. unfold match_rest in Hm. cbn [re_match fst snd] in Hm.
  destruct (strip_prefix (unescape (snd r0)) s) as [rest0|] eqn:E.
  - injection Hm as _ <- <-. apply strip_prefix_sound in E.
    rewrite E at 1 2. rewrite substring_prefix. fold (rule_text r0).
    destruct Hin as [<-|Hin]; [lia|].
    rewrite forallb_forall in H0. specialize (H0 r' Hin).
    destruct (Nat.le_gt_cases (String.length (rule_text r')) (String.length (rule_text r0)))
      as [Hle|Hgt]; [assumption|exfalso].
    destruct (prefix_append _ _ Hp) as (rest' & Hs').
    assert (Hpre : prefix (rule_text r0) (rule_text r') = true).
    { apply (prefix_of_append _ _ rest0 rest'); [|lia].
      unfold rule_text at 1. congruence. }
    rewrite Hpre in H0. discriminate H0.
  - apply strip_prefix_prefix in E.
    destruct Hin as [<-|Hin]; [unfold rule_text in Hp; congruence|].
    eapply IH; eauto.
Qed.

(** X7. The longest operator wins. When the token the lexer takes at the
    start of an input comes from a string rule, no string rule with a longer
    text matches there: PLY's ordering of the string rules by pattern length
    never lets an operator hide a longer one ("<<=" is never read as "<<"
    then "=", "<=" never as "<" then "="). *)
Theorem longest_operator_wins (py : python) (s : string) (ty : token_type) (lexeme rest : string)
        (r' : token_type * string) :
  first_match (master py) s = Some (t_string ty, lexeme, rest) ->
  In r' string_rules -> prefix (rule_text r') s = true ->
  String.length (rule_text r') <= String.length lexeme.
Proof.
  intros Hm Hin Hp. unfold master in Hm. rewrite first_match_app in Hm.
  match type of Hm with
  | match first_match ?F s with _ => _ end = _ =>
      destruct (first_match F s) as [[[r lx] rs]|] eqn:HF
  end.
  - exfalso. injection Hm as -> _ _.
    destruct (first_match_sound _ _ _ _ _ HF) as (re & HinF & _).
    simpl in HinF. repeat (destruct HinF as [HinF|HinF]; [discriminate HinF|]).
    destruct HinF.
  - eapply first_match_string_rules; eauto.
    + vm_compute. reflexivity.
    + now apply In_sort_by_length.
Qed.

Lemma longest_operator_wins_witness :
  String.length (rule_text (BINOP LSHIFT, "<<")) <= String.length "<<=".
Proof.
  apply (longest_operator_wins Python3 "<<=Rs" (ASSIGNOP LSHIFTEQUAL) "<<=" "Rs" (BINOP LSHIFT, "<<")).
  - reflexivity.
  - simpl. tauto.
  - reflexivity.
Defined.

(** ** Where objects are formatted

    The lemmas of this part are about an interpreter that formats objects as
    Python 2.7 does, whatever its class of word characters. *)

Section ObjectsAreFormatted.

Variable wc : word_class.

Local Abbreviation py := {| words := wc; objects := FormatsStr |}.

(** ** The parser computes a syntax-directed translation *)

Lemma atom_of_op t ty : ty = tok_type t -> ty <> REG -> atom_of t = A_op ty.
Proof.
  unfold atom_of. intros <- H. destruct ty; try reflexivity. congruence.
Qed.

(** Opening one entry of [stack_sem]. *)
Ltac open_sem Hs :=
  cbn [stack_sem] in Hs;
  let gh := fresh "gh" in
  let gm := fresh "gm" in
  let ys := fresh "ys" in
  let Hsem := fresh "Hsem" in
  let Hsym := fresh "Hsym" in
  let Htr := fresh "Htr" in
  let Hden := fresh "Hden" in
  let Hys := fresh "Hys" in
  let Hval := fresh "Hval" in
  let lexeme := fresh "lexeme" in
  let Hlex := fresh "Hlex" in
  destruct Hs as (gh & gm & ys & Hsem & Hsym & Htr & Hden & Hys & Hval);
  destruct gh; cbn [state_symbol ghost_symbol] in Hsym; try discriminate Hsym;
  try (injection Hsym as Hsym); cbn [ghost_symbol] in Htr, Hval; try rewrite <- Hsym in *;
  cbn [denote] in Hden;
  try match type of Hden with
      | ret _ _ = _ =>
          unfold ret in Hden; injection Hden as Hden ?;
          destruct (Hval _ eq_refl) as [lexeme Hlex]
      end;
  try clear Hval;
  subst.

Ltac slvl :=
  match goal with
  | Hs : stack_sem _ ?st _ _ _, Ht : trans (current_state ?st) _ = Some _ |- _ =>
      is_var st;
      let s := fresh "s" in
      let v := fresh "v" in
      let st' := fresh "st" in
      let Hk := fresh "Hkeep" in
      destruct st as [|[s v] st'];
      [ cbn in Ht; first [discriminate Ht | inversion Ht; subst; try clear Ht];
        pose proof Hs as Hk; destruct Hs as [? ?]; subst
      | destruct s; cbn in Ht; first [discriminate Ht | inversion Ht; subst; try clear Ht];
        pose proof Hs as Hk; open_sem Hs ]
  end.

Ltac run_reduce :=
  unfold reduce; cbn [pop_args prod_len]; unfold bind at 1;
  match goal with
  | |- context [callable _ ?p ?args ?g] =>
      let Hc := fresh "Hc" in
      destruct (callable py p args g) as [? [?|?]] eqn:Hc; [|discriminate];
      cbn [callable] in Hc
  end;
  cbn [current_state prod_name goto];
  let H := fresh "H" in
  intros H; injection H as <- <-;
  repeat match goal with
         | Hl : tok_value ?t = PyStr _ |- _ => rewrite Hl in *
         end.

Ltac use_den :=
  repeat match goal with
         | H : ?f ?gm = (_, Ok _) |- context [?f ?gm] => rewrite H
         end.

Ltac close gh :=
  cbn [stack_sem]; exists gh; eexists _, _;
  split; [eassumption|];
  split; [reflexivity|];
  split; [cbn; reflexivity|];
  split;
  [ cbn [denote translate_stmt translate_expr]; unfold bind; use_den;
    first [ reflexivity | eassumption
          | unfold translate_assign, bind in *; use_den;
            first [reflexivity | eassumption | idtac] ]
  | split;
    [ cbn [ghost_yield stmt_yield expr_yield]; subst;
      repeat match goal with
             | H : ?ty = tok_type ?t |- context [atom_of ?t] =>
                 rewrite (atom_of_op t ty H) by discriminate
             end;
      rewrite <- ?app_assoc; cbn [app]; try reflexivity
    | try (intros ? Hty; discriminate Hty) ] ].

Lemma reduce_sem st p g g' st' g0 ys :
  stack_sem py st g0 g ys -> state_reduction (current_state st) = Some p ->
  reduce py p st g = (g', Ok st') -> stack_sem py st' g0 g' ys.
Proof.
  intros Hs Hp. destruct st as [|[s v] st]; [discriminate Hp|].
  cbn [current_state] in Hp.
  destruct s; cbn in Hp; try discriminate Hp; injection Hp as <-; open_sem Hs.
  - (* statement : expression *)
    slvl; run_reduce; close (G_statement (SExpr e)).
  - slvl; run_reduce; close (G_statement (SAssign rd a e)).
  - slvl; run_reduce; close (G_expression (ERegister name)).
  - (* register : REG *)
    slvl; run_reduce; close (G_register lexeme);
      unfold atom_of; rewrite <- Hsym, Hlex; reflexivity.
  - (* statement : statement SEMI *)
    slvl; slvl; run_reduce; close (G_statement (SSemi s)).
  - (* statement : statement SEMI statement *)
    slvl; slvl; slvl; run_reduce; close (G_statement (SList s0 s)).
  - (* expression : register, after an operator *)
    slvl; run_reduce; close (G_expression (ERegister name)).
  - (* expression : expression o expression *)
    slvl; slvl; slvl; run_reduce; close (G_expression (EBinop e0 o e)).
  - (* statement_assign : register a expression *)
    slvl; slvl; slvl; run_reduce; close (G_statement_assign name a e).
Qed.

Lemma shift_sem st t s' g0 g ys :
  stack_sem py st g0 g ys -> token_ok t ->
  action (current_state st) (Some (tok_type t)) = Some (Shift s') ->
  stack_sem py ((s', tok_value t) :: st) g0 g (ys ++ [atom_of t]).
Proof.
  intros Hs Ht Ha. cbn [stack_sem]. exists (G_tok t), g, ys.
  split; [assumption|]. split; [exact (action_shift_symbol _ _ _ Ha)|].
  split; [cbn; now rewrite Ha|]. split; [reflexivity|]. split; [reflexivity|].
  intros ty _. apply Ht. intros E. rewrite E, action_IMM in Ha. discriminate Ha.
Qed.

Lemma lr_parse_sem e fuel : forall st toks g g0 ys g' v,
  stack_sem py st g0 g ys -> Forall token_ok toks ->
  lr_parse py fuel st toks e g = (g', Returned v) ->
  exists tree, stmt_yield tree = (ys ++ map atom_of toks)%list /\
               translate_stmt py tree g0 = (g', Ok v).
Proof.
  induction fuel as [|fuel IH]; intros st toks g g0 ys g' v Hs Htoks H; [discriminate H|].
  cbn [lr_parse] in H. unfold lr_step in H.
  assert (Hred : forall la p toks',
            action (current_state st) la = Some (Reduce p) -> Forall token_ok toks' ->
            match reduce py p st g with
            | (g1, Ok st1) => lr_parse py fuel st1 toks' e g1
            | (g1, Raise x) => (g1, Raised x)
            end = (g', Returned v) ->
            exists tree, stmt_yield tree = (ys ++ map atom_of toks')%list /\
                         translate_stmt py tree g0 = (g', Ok v)).
  { intros la p toks' Ha Htoks' Hr. apply action_reduce in Ha.
    destruct (reduce py p st g) as [g1 [st1|x]] eqn:E; [|discriminate Hr].
    eapply IH; [|exact Htoks'|exact Hr]. eapply reduce_sem; eauto. }
  destruct toks as [|t toks].
  - destruct e; try discriminate H. cbn [hd_error option_map] in H.
    destruct (action (current_state st) None) as [[s'|p|]|] eqn:Ha; try discriminate H.
    + eapply Hred; eauto.
      destruct (reduce py p st g) as [g1 [st1|x]]; exact H.
    + apply action_accept in Ha as [Hst _].
      destruct st as [|[s v0] st]; [discriminate Hst|]. simpl in Hst; subst s.
      injection H as <- <-.
      open_sem Hs. slvl.
      exists s. split; [rewrite app_nil_r; reflexivity|assumption].
  - cbn [hd_error option_map] in H.
    destruct (action (current_state st) (Some (tok_type t))) as [[s'|p|]|] eqn:Ha;
      try discriminate H.
    + inversion Htoks as [|? ? Htok Htoks']; subst.
      destruct (IH _ _ _ _ _ _ _ (shift_sem _ _ _ _ _ _ Hs Htok Ha) Htoks' H)
        as (tree & Hy & Ht).
      exists tree. split; [|assumption]. rewrite Hy, <- app_assoc. reflexivity.
    + eapply Hred; eauto.
      destruct (reduce py p st g) as [g1 [st1|x]]; exact H.
    + apply action_accept in Ha as [_ Ha]. discriminate Ha.
Qed.

Lemma parse_tree (s : string) (g g' : nat) (v : pyobj) :
  parse py s g = (g', Returned v) ->
  exists tree,
    stmt_yield tree = map atom_of (fst (tokenize py s)) /\
    translate_stmt py tree g = (g', Ok v).
Proof.
  unfold parse. destruct (tokenize_spec py s) as (toks & e & -> & [Htoks _]).
  cbn [fst]. intros H.
  apply (lr_parse_sem e _ [] toks g g []) in H; [exact H| |exact Htoks].
  split; reflexivity.
Qed.

(** ** What the translation of a tree is *)

Lemma translate_expr_code e : forall g,
  translate_expr py e g =
    (g + expr_binops e,
     Ok (PyBuilder (mkTB (fst (expr_code e g)) (Some (snd (expr_code e g)))))).
Proof.
  induction e as [name|l IHl o r IHr]; intros g.
  - cbn. now rewrite Nat.add_0_r.
  - cbn [translate_expr]. unfold bind. rewrite IHl, IHr. cbn [expr_code expr_binops fst snd].
    cbv beta iota zeta delta [p_expression_binop p_expression_binop_builder bind
      as_builder ret temporal get_next get_value _value extend_instructions set_value add
      _instructions gen_add format_s format_field format_arg_of format_arg_of_value
      objects].
    rewrite <- app_assoc. unfold Rtmp, tmp_name.
    replace (g + S (expr_binops l + expr_binops r))
      with (S (g + expr_binops l + expr_binops r)) by lia.
    reflexivity.
Qed.

Lemma translate_stmt_code s : forall g, exists val,
  translate_stmt py s g =
    (g + stmt_binops s, Ok (PyBuilder (mkTB (stmt_code s g) val))).
Proof.
  induction s as [e|rd a e|s1 IH1 s2 IH2|s1 IH1]; intros g.
  - eexists. cbn [translate_stmt]. unfold bind. rewrite translate_expr_code. reflexivity.
  - eexists. cbn [translate_stmt]. unfold translate_assign, bind.
    cbn [p_register_reg ret]. rewrite translate_expr_code. reflexivity.
  - destruct (IH1 g) as (v1 & E1). destruct (IH2 (g + stmt_binops s1)) as (v2 & E2).
    eexists. cbn [translate_stmt]. unfold bind. rewrite E1, E2.
    cbn [stmt_binops]. rewrite Nat.add_assoc. reflexivity.
  - destruct (IH1 g) as (v1 & E1).
    eexists. cbn [translate_stmt]. unfold bind. rewrite E1. reflexivity.
Qed.

Lemma filter_length_app {A} (f : A -> bool) l1 l2 :
  List.length (filter f (l1 ++ l2)) = List.length (filter f l1) + List.length (filter f l2).
Proof. now rewrite filter_app, length_app. Qed.

Lemma filter_atoms_tokens (fa : atom -> bool) (ft : LexToken -> bool) toks :
  (forall t, fa (atom_of t) = ft t) ->
  List.length (filter fa (map atom_of toks)) = List.length (filter ft toks).
Proof.
  intros H. induction toks as [|t toks IH]; [reflexivity|].
  simpl. rewrite H. destruct (ft t); simpl; congruence.
Qed.

Lemma atom_is_binop_of t : atom_is_binop (atom_of t) = is_binop_token t.
Proof.
  unfold atom_of, is_binop_token. destruct (tok_type t); try reflexivity.
  destruct (tok_value t); reflexivity.
Qed.

Lemma atom_is_assign_of t : atom_is_assign (atom_of t) = is_assign_token t.
Proof.
  unfold atom_of, is_assign_token. destruct (tok_type t); try reflexivity.
  destruct (tok_value t); reflexivity.
Qed.

Lemma expr_yield_binops e :
  List.length (filter atom_is_binop (expr_yield e)) = expr_binops e /\
  List.length (filter atom_is_assign (expr_yield e)) = 0.
Proof.
  induction e as [name|l [IHl1 IHl2] o r [IHr1 IHr2]]; [split; reflexivity|].
  cbn [expr_yield expr_binops]. rewrite !filter_length_app. cbn [filter atom_is_binop atom_is_assign].
  cbn [List.length]. lia.
Qed.

Lemma stmt_yield_counts s :
  List.length (filter atom_is_binop (stmt_yield s)) = stmt_binops s /\
  List.length (filter atom_is_assign (stmt_yield s)) = stmt_assigns s.
Proof.
  induction s as [e|rd a e|s1 [IH1 IH1'] s2 [IH2 IH2']|s1 [IH1 IH1']];
    cbn [stmt_yield stmt_binops stmt_assigns].
  - apply expr_yield_binops.
  - cbn [filter atom_is_binop atom_is_assign List.length].
    destruct (expr_yield_binops e) as [-> ->]. auto.
  - rewrite !filter_length_app. cbn [filter atom_is_binop atom_is_assign List.length]. lia.
  - rewrite !filter_length_app. cbn [filter atom_is_binop atom_is_assign List.length]. lia.
Qed.

Lemma expr_code_length e : forall g, List.length (fst (expr_code e g)) = expr_binops e.
Proof.
  induction e as [name|l IHl o r IHr]; intros g; [reflexivity|].
  cbn [expr_code expr_binops fst]. rewrite !length_app, IHl, IHr. simpl. lia.
Qed.

Lemma stmt_code_length s : forall g,
  List.length (stmt_code s g) = stmt_binops s + stmt_assigns s.
Proof.
  induction s as [e|rd a e|s1 IH1 s2 IH2|s1 IH1]; intros g;
    cbn [stmt_code stmt_binops stmt_assigns].
  - rewrite expr_code_length. lia.
  - rewrite length_app, expr_code_length. reflexivity.
  - rewrite length_app, IH1, IH2. lia.
  - apply IH1.
Qed.

(** What a successful [parse] holds: the code of a tree over the tokens. *)
Lemma parse_code (s : string) (g g' : nat) (tb : HexagonTranslationBuilder) :
  parse py s g = (g', Returned (PyBuilder tb)) ->
  exists tree,
    stmt_yield tree = map atom_of (fst (tokenize py s)) /\
    get_instructions tb = stmt_code tree g /\
    g' = g + stmt_binops tree.
Proof.
  intros H. destruct (parse_tree _ _ _ _ H) as (tree & Hy & Ht).
  destruct (translate_stmt_code tree g) as (val & E). rewrite E in Ht.
  injection Ht as Hg Htb. subst g' tb. exists tree. auto.
Qed.

Lemma to_uint_nonnil n : Nat.to_uint n <> Decimal.Nil.
Proof.
  intros H. pose proof (DecimalNat.Unsigned.to_of (Nat.to_uint n)) as E.
  rewrite DecimalNat.Unsigned.of_to, H in E. discriminate E.
Qed.

Lemma str_of_nat_inj a b : str_of_nat a = str_of_nat b -> a = b.
Proof.
  unfold str_of_nat. intros H.
  apply (f_equal NilZero.uint_of_string) in H.
  rewrite !NilZero.usu in H by apply to_uint_nonnil.
  injection H as H. now apply DecimalNat.Unsigned.to_uint_inj.
Qed.

Lemma tmp_name_inj a b : Rtmp (tmp_name a) = Rtmp (tmp_name b) -> a = b.
Proof.
  unfold Rtmp, tmp_name. intros H. injection H as H. now apply str_of_nat_inj.
Qed.

Lemma seq_binop g a b :
  seq g (S (a + b)) = (seq g a ++ seq (g + a) b ++ [g + a + b])%list.
Proof.
  rewrite seq_S, seq_app, <- app_assoc. now rewrite Nat.add_assoc.
Qed.

Lemma expr_code_dests e : forall g,
  map dest_of (fst (expr_code e g)) =
    map (fun k => Rtmp (tmp_name k)) (seq g (expr_binops e)) /\
  filter is_ADD (fst (expr_code e g)) = fst (expr_code e g) /\
  filter is_STR (fst (expr_code e g)) = [].
Proof.
  induction e as [name|l IHl o r IHr]; intros g; [repeat split; reflexivity|].
  destruct (IHl g) as (Hl1 & Hl2 & Hl3).
  destruct (IHr (g + expr_binops l)) as (Hr1 & Hr2 & Hr3).
  cbn [expr_code expr_binops fst]. rewrite seq_binop, !map_app, !filter_app.
  rewrite Hl1, Hr1, Hl2, Hr2, Hl3, Hr3. repeat split; reflexivity.
Qed.

Lemma stmt_code_adds s : forall g,
  map dest_of (filter is_ADD (stmt_code s g)) =
    map (fun k => Rtmp (tmp_name k)) (seq g (stmt_binops s)).
Proof.
  induction s as [e|rd a e|s1 IH1 s2 IH2|s1 IH1]; intros g;
    cbn [stmt_code stmt_binops].
  - destruct (expr_code_dests e g) as (H1 & -> & _). exact H1.
  - destruct (expr_code_dests e g) as (H1 & H2 & _).
    rewrite filter_app, H2. cbn. rewrite app_nil_r. exact H1.
  - rewrite filter_app, map_app, IH1, IH2, seq_app, map_app. reflexivity.
  - apply IH1.
Qed.

Lemma assigned_registers_expr e rest :
  (forall a rest', rest <> A_op (ASSIGNOP a) :: rest') ->
  assigned_registers (expr_yield e ++ rest) = assigned_registers rest.
Proof.
  revert rest. induction e as [name|l IHl o r IHr]; intros rest Hrest.
  - cbn. destruct rest as [|[n|[]] rest']; try reflexivity.
    exfalso. eapply Hrest. reflexivity.
  - cbn [expr_yield]. rewrite <- app_assoc. rewrite IHl by discriminate.
    cbn [app assigned_registers]. now apply IHr.
Qed.

Lemma assigned_registers_stmt s rest :
  (forall a rest', rest <> A_op (ASSIGNOP a) :: rest') ->
  exists regs,
    assigned_registers (stmt_yield s ++ rest) = (regs ++ assigned_registers rest)%list /\
    forall g, map dest_of (filter is_STR (stmt_code s g)) = map Rreg regs.
Proof.
  revert rest. induction s as [e|rd a e|s1 IH1 s2 IH2|s1 IH1]; intros rest Hrest.
  - exists []. split.
    + now apply assigned_registers_expr.
    + intros g. cbn [stmt_code]. destruct (expr_code_dests e g) as (_ & _ & ->). reflexivity.
  - exists [rd]. split.
    + cbn [stmt_yield app assigned_registers]. f_equal.
      now apply assigned_registers_expr.
    + intros g. cbn [stmt_code]. rewrite filter_app.
      destruct (expr_code_dests e g) as (_ & _ & ->). reflexivity.
  - destruct (IH2 rest Hrest) as (r2 & E2 & C2).
    destruct (IH1 (A_op SEMI :: stmt_yield s2 ++ rest)%list ltac:(discriminate))
      as (r1 & E1 & C1).
    exists (r1 ++ r2)%list. split.
    + cbn [stmt_yield]. rewrite <- app_assoc. cbn [app]. rewrite E1.
      cbn [assigned_registers]. rewrite E2, app_assoc. reflexivity.
    + intros g. cbn [stmt_code]. rewrite filter_app, !map_app, C1, C2. reflexivity.
  - destruct (IH1 (A_op SEMI :: rest)%list ltac:(discriminate)) as (r1 & E1 & C1).
    exists r1. split.
    + cbn [stmt_yield]. rewrite <- app_assoc. cbn [app]. rewrite E1. reflexivity.
    + intros g. cbn [stmt_code]. apply C1.
Qed.

Lemma use_ok_weaken w w' x :
  (forall y, In y w -> In y w') -> use_ok w x -> use_ok w' x.
Proof. intros Hw [H|H]; [left|right]; auto. Qed.

Lemma ordered_weaken code : forall w w',
  (forall y, In y w -> In y w') -> ordered w code -> ordered w' code.
Proof.
  induction code as [|i code IH]; intros w w' Hw; [trivial|].
  cbn [ordered]. intros [Hs Hc]. split.
  - eapply Forall_impl; [|exact Hs]. intros x. now apply use_ok_weaken.
  - eapply IH; [|exact Hc]. intros y [<-|Hy]; [now left|right; auto].
Qed.

Lemma ordered_app c1 : forall w c2,
  ordered w (c1 ++ c2) <-> ordered w c1 /\ ordered (rev (map dest_of c1) ++ w) c2.
Proof.
  induction c1 as [|i c1 IH]; intros w c2; cbn [app ordered map rev].
  - tauto.
  - rewrite IH, <- app_assoc. cbn [app]. tauto.
Qed.

Lemma expr_code_ordered e : forall g w,
  ordered w (fst (expr_code e g)) /\
  use_ok (rev (map dest_of (fst (expr_code e g))) ++ w) (snd (expr_code e g)).
Proof.
  induction e as [name|l IHl o r IHr]; intros g w.
  - split; [exact I|]. left. now exists name.
  - destruct (IHl g w) as [Ol Ul].
    destruct (IHr (g + expr_binops l) (rev (map dest_of (fst (expr_code l g))) ++ w)%list)
      as [Or Ur].
    cbn [expr_code fst snd]. split.
    + apply ordered_app. split; [assumption|].
      apply ordered_app. split; [assumption|].
      cbn [ordered sources_of]. split; [|exact I].
      constructor; [|constructor; [assumption|constructor]].
      eapply use_ok_weaken; [|exact Ul]. intros y Hy. apply in_or_app. now right.
    + right. rewrite !map_app, !rev_app_distr. cbn. now left.
Qed.

Lemma stmt_code_ordered s : forall g w, ordered w (stmt_code s g).
Proof.
  induction s as [e|rd a e|s1 IH1 s2 IH2|s1 IH1]; intros g w; cbn [stmt_code].
  - apply expr_code_ordered.
  - destruct (expr_code_ordered e g w) as [Oe Ue].
    apply ordered_app. split; [assumption|].
    cbn [ordered sources_of]. split; [|exact I]. constructor; [assumption|constructor].
  - apply ordered_app. split; [apply IH1|apply IH2].
  - apply IH1.
Qed.

Lemma expr_code_shape e : forall g,
  Forall (fun i => emitted_shape i /\ Forall register_or_temporary (sources_of i))
         (fst (expr_code e g)) /\
  register_or_temporary (snd (expr_code e g)).
Proof.
  induction e as [name|l IHl o r IHr]; intros g.
  - split; [constructor|]. left. now exists name.
  - destruct (IHl g) as [Fl Vl]. destruct (IHr (g + expr_binops l)) as [Fr Vr].
    cbn [expr_code fst snd]. split.
    + apply Forall_app. split; [assumption|]. apply Forall_app. split; [assumption|].
      constructor; [|constructor]. split.
      * left. do 3 eexists. reflexivity.
      * cbn. auto.
    + right. eexists. reflexivity.
Qed.

Lemma stmt_code_shape s : forall g,
  Forall (fun i => emitted_shape i /\ Forall register_or_temporary (sources_of i))
         (stmt_code s g).
Proof.
  induction s as [e|rd a e|s1 IH1 s2 IH2|s1 IH1]; intros g; cbn [stmt_code].
  - apply expr_code_shape.
  - destruct (expr_code_shape e g) as [Fe Ve].
    apply Forall_app. split; [assumption|]. constructor; [|constructor]. split.
    + right. do 2 eexists. reflexivity.
    + cbn. auto.
  - apply Forall_app. split; [apply IH1|apply IH2].
  - apply IH1.
Qed.

(** ** Operator chains are grouped from the right *)

Ltac bool_hyps :=
  repeat match goal with
         | H : _ && _ = true |- _ => apply andb_true_iff in H; destruct H
         | H : true = true |- _ => clear H
         end.

Ltac solve_bool :=
  rewrite ?orb_false_r, ?orb_true_r, ?andb_true_r in *;
  repeat match goal with
         | H : match ?x with _ => _ end = true |- _ => destruct x; try discriminate H
         end;
  cbn; rewrite ?forallb_app; cbn;
  repeat match goal with H : ?b = true |- context [?b] => rewrite H end;
  cbn; rewrite ?orb_true_r; try reflexivity.

Lemma reduce_right st la p g g' st' :
  stack_ok st -> right_ok st la = true ->
  action (current_state st) la = Some (Reduce p) ->
  reduce py p st g = (g', Ok st') -> right_ok st' la = true.
Proof.
  intros Hok Hr Ha. destruct st as [|[s v] st]; [destruct la as [[]|]; discriminate Ha|].
  cbn [current_state] in Ha.
  destruct s; destruct la as [[]|]; cbn in Ha; try discriminate Ha; injection Ha as <-;
    cbn [stack_ok state_symbol] in Hok; destruct Hok as [[Ht Hv] Hok].
  all: lvl.
  all: try lvl.
  all: try lvl.
  all: open_values.
  all: unfold reduce; cbn; intros H; injection H as <- <-.
  all: cbn in Hr |- *; bool_hyps.
  all: solve_bool.
Qed.

Lemma lr_parse_right e fuel : forall st toks g g' l val,
  stack_ok st -> Forall token_ok toks ->
  right_ok st (option_map tok_type (hd_error toks)) = true ->
  lr_parse py fuel st toks e g = (g', Returned (PyBuilder (mkTB l val))) ->
  forallb add_left_is_register l = true.
Proof.
  induction fuel as [|fuel IH]; intros st toks g g' l val Hok Htoks Hr H; [discriminate H|].
  cbn [lr_parse] in H.
  pose proof (lr_step_ok py st toks e g Hok Htoks) as Hpost.
  unfold lr_step in H, Hpost.
  destruct toks as [|t toks].
  - destruct e; try discriminate H. cbn [hd_error option_map] in *.
    destruct (action (current_state st) None) as [[s'|p|]|] eqn:Ha; try discriminate H.
    + destruct (reduce py p st g) as [g1 [st1|x]] eqn:E; [|discriminate H].
      simpl in Hpost. destruct Hpost as (Hok1 & Htoks1 & _).
      apply (IH st1 [] g1 g' l val Hok1 Htoks1); [|exact H].
      exact (reduce_right st None p g g1 st1 Hok Hr Ha E).
    + apply action_accept in Ha as [Hs _].
      destruct st as [|[s v] st]; [discriminate Hs|]. simpl in Hs; subst s.
      injection H as _ ->. cbn in Hr. bool_hyps. assumption.
  - cbn [hd_error option_map] in *.
    destruct (action (current_state st) (Some (tok_type t))) as [[s'|p|]|] eqn:Ha;
      try discriminate H.
    + simpl in Hpost. destruct Hpost as (Hok1 & Htoks1 & _).
      apply (IH ((s', tok_value t) :: st) toks g g' l val Hok1 Htoks1); [|exact H].
      destruct st as [|[s v] st].
      * cbn. unfold entry_code. rewrite (action_shift_symbol _ _ _ Ha).
        destruct s'; try reflexivity; destruct (tok_type t); discriminate Ha.
      * cbn [right_ok below_ok forallb fst snd] in Hr |- *. bool_hyps.
        unfold entry_code at 1. rewrite (action_shift_symbol _ _ _ Ha).
        cbn [current_state] in Ha.
        destruct s; destruct (tok_type t); cbn in Ha; try discriminate Ha;
          injection Ha as <-; cbn in *; solve_bool;
          try (unfold below_ok in *; assumption).
    + destruct (reduce py p st g) as [g1 [st1|x]] eqn:E; [|discriminate H].
      simpl in Hpost. destruct Hpost as (Hok1 & Htoks1 & _).
      apply (IH st1 (t :: toks) g1 g' l val Hok1 Htoks1); [|exact H].
      exact (reduce_right st (Some (tok_type t)) p g g1 st1 Hok Hr Ha E).
    + apply action_accept in Ha as [_ Ha]. discriminate Ha.
Qed.

(** ** The inputs that are accepted *)

Lemma reduce_state p st g g' st' :
  reduce py p st g = (g', Ok st') ->
  exists args st0 v s',
    pop_args (prod_len p) st [] = Some (args, st0) /\
    goto (current_state st0) (prod_name p) = Some s' /\ st' = (s', v) :: st0.
Proof.
  unfold reduce. destruct (pop_args _ _ _) as [[args st0]|] eqn:Hpop; [|discriminate].
  unfold bind. destruct (callable py p args g) as [g1 [v|x]]; [|discriminate].
  destruct (goto _ _) as [s'|] eqn:Hgoto; [|discriminate].
  intros H; injection H as _ <-. exists args, st0, v, s'. auto.
Qed.

Lemma reduce_accepts st p g tys :
  stack_ok st -> action (current_state st) (hd_error tys) = Some (Reduce p) ->
  exists st' g', reduce py p st g = (g', Ok st') /\
                 stack_accepts st' tys = stack_accepts st tys.
Proof.
  intros Hok Ha.
  destruct (reduce_ok wc st p g Hok (action_reduce _ _ _ Ha)) as (st' & g' & E & _).
  exists st', g'. split; [assumption|].
  apply reduce_state in E as (args & st0 & v & s' & Hpop & Hgoto & ->).
  destruct st as [|[s v0] st]; [destruct tys as [|[]]; discriminate Ha|].
  cbn [current_state] in Ha.
  destruct s; cbn [stack_ok state_symbol] in Hok;
    [destruct Hok as [[] _]|destruct Hok as [[Ht Hv] Hok]..];
    (destruct tys as [|ty tys]; [|destruct ty]); cbn in Ha; try discriminate Ha;
    injection Ha as <-.
  all: lvl.
  all: try lvl.
  all: try lvl.
  all: cbn in Hpop; injection Hpop as <- <-; cbn in Hgoto; injection Hgoto as <-.
  all: reflexivity.
Qed.

Lemma shift_accepts st ty s' v tys :
  action (current_state st) (Some ty) = Some (Shift s') ->
  stack_accepts ((s', v) :: st) tys = stack_accepts st (ty :: tys).
Proof.
  intros Ha. destruct st as [|[s v0] st].
  - destruct ty; cbn in Ha; try discriminate Ha; injection Ha as <-; reflexivity.
  - cbn [current_state] in Ha.
    destruct s; destruct ty; cbn in Ha; try discriminate Ha; injection Ha as <-;
      try reflexivity.
    all: destruct st as [|[[] ?] ?]; reflexivity.
Qed.

Lemma error_accepts st tys :
  action (current_state st) (hd_error tys) = None -> stack_accepts st tys = false.
Proof.
  intros Ha. destruct st as [|[s v0] st].
  - destruct tys as [|[] ?]; cbn in Ha; try discriminate Ha; reflexivity.
  - cbn [current_state] in Ha.
    destruct s; (destruct tys as [|ty tys]; [|destruct ty]); cbn in Ha;
      try discriminate Ha; try reflexivity.
    all: destruct st as [|[[] ?] ?]; reflexivity.
Qed.

Lemma lr_parse_accepts fuel : forall st toks g,
  stack_ok st -> Forall token_ok toks -> measure st toks < fuel ->
  match snd (lr_parse py fuel st toks LexEOF g) with
  | Returned _ => stack_accepts st (map tok_type toks) = true
  | Raised _ => stack_accepts st (map tok_type toks) = false
  | OutOfFuel => False
  end.
Proof.
  induction fuel as [|fuel IH]; intros st toks g Hst Htoks Hm; [lia|].
  cbn [lr_parse].
  pose proof (lr_step_ok py st toks LexEOF g Hst Htoks) as Hstep.
  assert (Hla : hd_error (map tok_type toks) = option_map tok_type (hd_error toks))
    by (destruct toks; reflexivity).
  unfold lr_step in *.
  destruct (action (current_state st) (option_map tok_type (hd_error toks)))
    as [[s'|p|]|] eqn:Ha.
  - destruct toks as [|t toks]; [now apply action_end_no_shift in Ha|].
    cbn [hd_error option_map] in Ha. cbn [map].
    rewrite <- (shift_accepts st (tok_type t) s' (tok_value t) _ Ha).
    destruct Hstep as (Hst' & Htoks' & Hm' & _).
    apply IH; auto. lia.
  - rewrite <- Hla in Ha.
    destruct (reduce_accepts st p g _ Hst Ha) as (st' & g' & E & <-).
    rewrite E in *.
    assert (Hnext : step_post py st toks LexEOF (Next st' toks g'))
      by (destruct toks; exact Hstep).
    destruct Hnext as (Hst' & Htoks' & Hm' & _).
    destruct toks; apply IH; auto; lia.
  - apply action_accept in Ha as [Hs Hnone].
    destruct toks as [|t toks]; [|discriminate Hnone].
    destruct st as [|[s v] st]; [discriminate Hs|]. simpl in Hs; subst s. reflexivity.
  - rewrite <- Hla in Ha. apply error_accepts in Ha.
    destruct toks; simpl; exact Ha.
Qed.

(** ** The value of the result *)

Lemma translate_stmt_value s : forall g,
  translate_stmt py s g =
    (g + stmt_binops s, Ok (PyBuilder (mkTB (stmt_code s g) (Some (stmt_value s g))))).
Proof.
  induction s as [e|rd a e|s1 IH1 s2 IH2|s1 IH1]; intros g.
  - cbn [translate_stmt]. unfold bind. rewrite translate_expr_code. reflexivity.
  - cbn [translate_stmt]. unfold translate_assign, bind.
    cbn [p_register_reg ret]. rewrite translate_expr_code. reflexivity.
  - cbn [translate_stmt]. unfold bind. rewrite IH1, IH2.
    cbn [stmt_binops]. rewrite Nat.add_assoc. reflexivity.
  - cbn [translate_stmt]. unfold bind. rewrite IH1. reflexivity.
Qed.

Lemma expr_yield_head e :
  exists r rest, expr_yield e = A_REG r :: rest /\
    (rest = [] \/ exists o rest', rest = A_op (BINOP o) :: rest').
Proof.
  induction e as [name|l IHl o r _].
  - exists name, []. auto.
  - destruct IHl as (r0 & rest & E & Hrest). cbn [expr_yield]. rewrite E.
    exists r0, (rest ++ A_op (BINOP o) :: expr_yield r)%list. split; [reflexivity|].
    right. destruct Hrest as [->|(o' & rest' & ->)]; cbn; eauto.
Qed.

Lemma expr_code_operand e g : exists o, snd (expr_code e g) = VOperand o.
Proof. destruct e; cbn; unfold Rreg, Rtmp; eauto. Qed.

Lemma stmt_value_head s g : forall tail,
  tail = [] \/ (exists tail', tail = A_op SEMI :: tail') ->
  match starts_with_assignment (stmt_yield s ++ tail) with
  | Some rd => stmt_value s g = VBuilder (mkTB [] (Some (Rreg rd)))
  | None => exists o, stmt_value s g = VOperand o
  end.
Proof.
  induction s as [e|rd a e|s1 IH1 s2 _|s1 IH1]; intros tail Htail.
  - cbn [stmt_yield stmt_value].
    destruct (expr_yield_head e) as (r & rest & -> & [->|(o & rest' & ->)]).
    + destruct Htail as [->|(tail' & ->)]; cbn; apply expr_code_operand.
    + cbn. apply expr_code_operand.
  - reflexivity.
  - cbn [stmt_yield stmt_value]. rewrite <- app_assoc. apply IH1. right. cbn. eauto.
  - cbn [stmt_yield stmt_value]. rewrite <- app_assoc. apply IH1. right. cbn. eauto.
Qed.

End ObjectsAreFormatted.

(** ** Where objects are not formatted

    The lemmas of this part are about an interpreter that refuses the
    specification [s] for an object, as Python 3 does, whatever its class of
    word characters. *)

Section ObjectsAreRefused.

Variable wc : word_class.

Local Abbreviation py := {| words := wc; objects := RefusesSpec |}.

Lemma reduce_ends st p g tys eof :
  stack_ok st -> no_statement st = true ->
  action (current_state st) (hd_error tys) = Some (Reduce p) ->
  (tys = [] -> eof = true) ->
  (formats_objects p = true /\
   (exists g', reduce py p st g = (g', Raise TypeError)) /\
   first_statement_ends (stack_position st) tys eof = true) \/
  (exists st' g', reduce py p st g = (g', Ok st') /\
     first_statement_ends (stack_position st') tys eof =
     first_statement_ends (stack_position st) tys eof).
Proof.
  intros Hok Hno Ha Heof.
  pose proof (action_reduce _ _ _ Ha) as Hp.
  rewrite (reduce_refuses wc st p g Hok Hp).
  destruct st as [|[s v0] st]; [destruct tys as [|[]]; discriminate Ha|].
  cbn [current_state] in Ha, Hp. cbn [no_statement forallb fst] in Hno.
  apply andb_true_iff in Hno as [Hs _].
  destruct s; try discriminate Hs; cbn [stack_ok state_symbol] in Hok;
    [destruct Hok as [[] _]|destruct Hok as [[Ht Hv] Hok]..];
    (destruct tys as [|ty tys]; [rewrite (Heof eq_refl)|destruct ty]);
    cbn in Ha; try discriminate Ha; injection Ha as <-.
  all: try (left; split; [reflexivity|]; split; [eexists; reflexivity|reflexivity]).
  all: right.
  all: lvl; open_values; unfold reduce; cbn; do 2 eexists; (split; [reflexivity|]).
  all: reflexivity.
Qed.

Lemma shift_ends st ty s' v tys eof :
  no_statement st = true ->
  action (current_state st) (Some ty) = Some (Shift s') ->
  first_statement_ends (stack_position ((s', v) :: st)) tys eof =
  first_statement_ends (stack_position st) (ty :: tys) eof.
Proof.
  intros Hno Ha. destruct st as [|[s v0] st].
  - destruct ty; cbn in Ha; try discriminate Ha; injection Ha as <-; reflexivity.
  - cbn [current_state] in Ha. cbn [no_statement forallb fst] in Hno.
    apply andb_true_iff in Hno as [Hs _].
    destruct s; try discriminate Hs; destruct ty; cbn in Ha; try discriminate Ha;
      injection Ha as <-; reflexivity.
Qed.

Lemma error_ends st tys eof :
  no_statement st = true ->
  action (current_state st) (hd_error tys) = None ->
  first_statement_ends (stack_position st) tys eof = false.
Proof.
  intros Hno Ha. destruct st as [|[s v0] st].
  - destruct tys as [|[] ?]; cbn in Ha; try discriminate Ha;
      cbn; rewrite ?andb_false_r; reflexivity.
  - cbn [current_state] in Ha. cbn [no_statement forallb fst] in Hno.
    apply andb_true_iff in Hno as [Hs _].
    destruct s; try discriminate Hs; (destruct tys as [|ty tys]; [|destruct ty]);
      cbn in Ha; try discriminate Ha;
      try (cbn; rewrite ?andb_false_r; reflexivity).
    all: destruct st as [|[[] ?] ?]; cbn; rewrite ?andb_false_r; reflexivity.
Qed.

Lemma lr_parse_ends e fuel : forall st toks g,
  stack_ok st -> no_statement st = true -> Forall token_ok toks ->
  measure st toks < fuel ->
  e = LexEOF \/ (exists msg, e = LexRaise (UnknownBehaviorException msg)) ->
  (snd (lr_parse py fuel st toks e g) = Raised TypeError <->
   first_statement_ends (stack_position st) (map tok_type toks) (is_eof e) = true).
Proof.
  induction fuel as [|fuel IH]; intros st toks g Hst Hno Htoks Hm He; [lia|].
  cbn [lr_parse].
  pose proof (lr_step_ok py st toks e g Hst Htoks) as Hstep.
  assert (Hla : hd_error (map tok_type toks) = option_map tok_type (hd_error toks))
    by (destruct toks; reflexivity).
  assert (Hend : toks = [] -> e = LexEOF \/
                              (snd (match lr_step py st toks e g with
                                    | Next st' toks' g' => lr_parse py fuel st' toks' e g'
                                    | Done g' o => (g', o)
                                    end) = Raised TypeError <->
                               first_statement_ends (stack_position st)
                                 (map tok_type toks) (is_eof e) = true)).
  { intros ->. destruct He as [->|(msg & ->)]; [now left|right].
    cbn. split; discriminate. }
  destruct toks as [|t toks].
  - destruct (Hend eq_refl) as [->|Hdone]; [|exact Hdone]. clear Hend.
    unfold lr_step in *. cbn [hd_error option_map map is_eof] in *.
    destruct (action (current_state st) None) as [[s'|p|]|] eqn:Ha.
    + now apply action_end_no_shift in Ha.
    + destruct (reduce_ends st p g [] true Hst Hno Ha (fun _ => eq_refl))
        as [(_ & (g' & E) & ->)|(st' & g' & E & <-)]; rewrite E in *.
      * cbn. tauto.
      * destruct Hstep as (Hst' & _ & Hm' & _).
        apply (IH st' [] g'); auto; [|lia].
        apply action_reduce in Ha.
        exact (reduce_no_statement wc st p g st' g' Hst Hno Ha E).
    + apply action_accept in Ha as [Hs _].
      destruct st as [|[s v] st]; [discriminate Hs|]. simpl in Hs; subst s.
      discriminate Hno.
    + rewrite (error_ends st [] true Hno Ha). cbn. split; discriminate.
  - clear Hend. unfold lr_step in *. cbn [hd_error option_map map] in *.
    destruct (action (current_state st) (Some (tok_type t))) as [[s'|p|]|] eqn:Ha.
    + rewrite <- (shift_ends st (tok_type t) s' (tok_value t) _ _ Hno Ha).
      destruct Hstep as (Hst' & Htoks' & Hm' & _).
      apply IH; auto; [|lia]. exact (shift_no_statement st _ s' _ Hno Ha).
    + destruct (reduce_ends st p g (tok_type t :: map tok_type toks) (is_eof e)
                  Hst Hno Ha ltac:(discriminate))
        as [(_ & (g' & E) & ->)|(st' & g' & E & <-)]; rewrite E in *.
      * cbn. tauto.
      * destruct Hstep as (Hst' & Htoks' & Hm' & _).
        apply (IH st' (t :: toks) g'); auto; [|lia].
        apply action_reduce in Ha.
        exact (reduce_no_statement wc st p g st' g' Hst Hno Ha E).
    + apply action_accept in Ha as [_ Ha]. discriminate Ha.
    + rewrite (error_ends st (tok_type t :: map tok_type toks) _ Hno Ha).
      cbn. split; [|discriminate]. destruct (tok_value t); discriminate.
Qed.

Lemma parse_ends (s : string) (g : nat) :
  snd (parse py s g) = Raised TypeError <->
  first_statement_ends At_start (map tok_type (fst (tokenize py s)))
                       (is_eof (snd (tokenize py s))) = true.
Proof.
  destruct (tokenize_spec py s) as (toks & e & Htok & [Htoks Hend]).
  unfold parse. rewrite Htok. cbn [fst snd].
  apply (lr_parse_ends e _ [] toks g I eq_refl Htoks).
  - unfold measure, parse_fuel. simpl. lia.
  - destruct Hend as [[-> _]|(pre & c & rest & _ & _ & ->)]; [now left|right].
    unfold t_error. eauto.
Qed.

End ObjectsAreRefused.

(** ** What [parse] returns where objects are formatted *)

(** X8. [parse] computes a syntax-directed translation. Where objects are
    formatted, as on Python 2.7, whenever [parse] returns there is a parse
    tree of the grammar whose leaves are the tokens of the input, in order,
    and the value returned (with the new state of the name generator) is
    what the grammar actions give when run over that tree from the leaves
    up and from left to right. *)
Theorem parse_is_translation (py : python) (s : string) (g g' : nat) (v : pyobj) :
  objects py = FormatsStr ->
  parse py s g = (g', Returned v) ->
  exists tree,
    stmt_yield tree = map atom_of (fst (tokenize py s)) /\
    translate_stmt py tree g = (g', Ok v).
Proof.
  destruct py as [wc f]. cbn [objects]. intros ->. apply parse_tree.
Qed.

Lemma parse_is_translation_witness :
  exists tree,
    stmt_yield tree = map atom_of (fst (tokenize Python2 "Rd=Rs+Rt;")) /\
    translate_stmt Python2 tree 0 = (1, Ok (PyBuilder (mkTB
       [ mkInstr ADD [Rreg "Rs"; Rreg "Rt"] (Rtmp "t0");
         mkInstr STR [Rtmp "t0"] (Rreg "Rd") ]
       (Some (VBuilder (mkTB [] (Some (Rreg "Rd")))))))).
Proof.
  apply (parse_is_translation Python2 "Rd=Rs+Rt;" 0 1); reflexivity.
Defined.

(** X9. One instruction per operator. Where objects are formatted, as on
    Python 2.7, when [parse] returns, the number of instructions is the
    number of binary-operator tokens plus the number of assignment-operator
    tokens of the input, and the counter of the name generator has advanced
    by exactly the number of binary-operator tokens: one temporary per
    binary operator, none for anything else. *)
Theorem one_instruction_per_operator (py : python) (s : string) (g g' : nat)
        (tb : HexagonTranslationBuilder) :
  objects py = FormatsStr ->
  parse py s g = (g', Returned (PyBuilder tb)) ->
  List.length (get_instructions tb) =
    List.length (filter is_binop_token (fst (tokenize py s))) +
    List.length (filter is_assign_token (fst (tokenize py s))) /\
  g' = g + List.length (filter is_binop_token (fst (tokenize py s))).
Proof.
  destruct py as [wc f]. cbn [objects]. intros -> H.
  destruct (parse_code wc _ _ _ _ H) as (tree & Hy & -> & ->).
  destruct (stmt_yield_counts tree) as [Hb Ha]. rewrite Hy in Hb, Ha.
  rewrite (filter_atoms_tokens _ _ _ atom_is_binop_of) in Hb.
  rewrite (filter_atoms_tokens _ _ _ atom_is_assign_of) in Ha.
  rewrite stmt_code_length, Hb, Ha. auto.
Qed.

Lemma one_instruction_per_operator_witness :
  List.length (get_instructions builder_Rd_Rs_Rt) =
    List.length (filter is_binop_token (fst (tokenize Python2 "Rd=Rs+Rt;"))) +
    List.length (filter is_assign_token (fst (tokenize Python2 "Rd=Rs+Rt;"))) /\
  1 = 0 + List.length (filter is_binop_token (fst (tokenize Python2 "Rd=Rs+Rt;"))).
Proof.
  apply (one_instruction_per_operator Python2 "Rd=Rs+Rt;" 0 1 builder_Rd_Rs_Rt);
    reflexivity.
Defined.

(** X10. The temporaries. Where objects are formatted, as on Python 2.7,
    when [parse] returns, the destinations of the ADD instructions, read in
    order, are the temporaries the name generator issues from its state
    before the call up to its state after it: the k-th ADD writes the k-th
    of them. So they are pairwise distinct, and none of them was issued
    before the call. *)
Theorem add_destinations_are_fresh (py : python) (s : string) (g g' : nat)
        (tb : HexagonTranslationBuilder) :
  objects py = FormatsStr ->
  parse py s g = (g', Returned (PyBuilder tb)) ->
  map dest_of (filter is_ADD (get_instructions tb)) =
    map (fun k => Rtmp (tmp_name k)) (seq g (g' - g)) /\
  NoDup (map dest_of (filter is_ADD (get_instructions tb))) /\
  (forall k, get_next k = (S k, Ok (tmp_name k))).
Proof.
  destruct py as [wc f]. cbn [objects]. intros -> H.
  destruct (parse_code wc _ _ _ _ H) as (tree & Hy & -> & ->).
  assert (E : map dest_of (filter is_ADD (stmt_code tree g)) =
              map (fun k => Rtmp (tmp_name k)) (seq g (g + stmt_binops tree - g))).
  { rewrite stmt_code_adds. do 2 f_equal. lia. }
  split; [exact E|]. split; [|reflexivity].
  rewrite E. apply Injective_map_NoDup; [|apply seq_NoDup].
  intros a b. apply tmp_name_inj.
Qed.

Lemma add_destinations_are_fresh_witness :
  map dest_of (filter is_ADD (get_instructions builder_Rd_Rs_Rt)) =
    map (fun k => Rtmp (tmp_name k)) (seq 0 (1 - 0)) /\
  NoDup (map dest_of (filter is_ADD (get_instructions builder_Rd_Rs_Rt))) /\
  (forall k, get_next k = (S k, Ok (tmp_name k))).
Proof.
  apply (add_destinations_are_fresh Python2 "Rd=Rs+Rt;" 0 1 builder_Rd_Rs_Rt);
    reflexivity.
Defined.

(** X11. The stores follow the input. Where objects are formatted, as on
    Python 2.7, when [parse] returns, the destinations of the STORE
    instructions, read in order, are the registers that are assigned to in
    the input (the register names that stand right before an assignment
    operator), in the order of the input. *)
Theorem stores_follow_the_input (py : python) (s : string) (g g' : nat)
        (tb : HexagonTranslationBuilder) :
  objects py = FormatsStr ->
  parse py s g = (g', Returned (PyBuilder tb)) ->
  map dest_of (filter is_STR (get_instructions tb)) =
    map Rreg (assigned_registers (map atom_of (fst (tokenize py s)))).
Proof.
  destruct py as [wc f]. cbn [objects]. intros -> H.
  destruct (parse_code wc _ _ _ _ H) as (tree & Hy & -> & _).
  destruct (assigned_registers_stmt tree [] ltac:(discriminate)) as (regs & E & C).
  rewrite app_nil_r in E. cbn in E. rewrite app_nil_r in E.
  rewrite <- Hy, E. apply C.
Qed.

Lemma stores_follow_the_input_witness :
  map dest_of (filter is_STR (get_instructions builder_Rd_Rs_Rt)) =
    map Rreg (assigned_registers (map atom_of (fst (tokenize Python2 "Rd=Rs+Rt;")))).
Proof.
  apply (stores_follow_the_input Python2 "Rd=Rs+Rt;" 0 1 builder_Rd_Rs_Rt); reflexivity.
Defined.

(** X12. Written before read. Where objects are formatted, as on Python
    2.7, when [parse] returns, every source operand of every instruction is
    a register of width [hexagon_size], or a temporary that is the
    destination of an instruction standing earlier in the sequence: no
    instruction reads a temporary before it is written. *)
Theorem temporaries_are_written_before_read (py : python) (s : string) (g g' : nat)
        (tb : HexagonTranslationBuilder) (pre post : list ReilInstruction)
        (i : ReilInstruction) (x : Value) :
  objects py = FormatsStr ->
  parse py s g = (g', Returned (PyBuilder tb)) ->
  get_instructions tb = (pre ++ i :: post)%list ->
  In x (sources_of i) ->
  (exists name, x = Rreg name) \/ (exists j, In j pre /\ dest_of j = x).
Proof.
  destruct py as [wc f]. cbn [objects]. intros -> H Hsplit Hx.
  destruct (parse_code wc _ _ _ _ H) as (tree & _ & E & _).
  pose proof (stmt_code_ordered tree g []) as Ho. rewrite <- E, Hsplit in Ho.
  apply ordered_app in Ho as [_ Ho]. cbn [ordered] in Ho. destruct Ho as [Hs _].
  rewrite Forall_forall in Hs. destruct (Hs x Hx) as [Hr|Hw]; [now left|right].
  rewrite app_nil_r in Hw. apply in_rev, in_map_iff in Hw. destruct Hw as (j & Hj & Hin).
  exists j. auto.
Qed.

Lemma temporaries_are_written_before_read_witness :
  (exists name, Rtmp "t0" = Rreg name) \/
  (exists j, In j [mkInstr ADD [Rreg "Rs"; Rreg "Rt"] (Rtmp "t0")] /\ dest_of j = Rtmp "t0").
Proof.
  apply (temporaries_are_written_before_read Python2 "Rd=Rs+Rt;" 0 1 builder_Rd_Rs_Rt
           [mkInstr ADD [Rreg "Rs"; Rreg "Rt"] (Rtmp "t0")] []
           (mkInstr STR [Rtmp "t0"] (Rreg "Rd")) (Rtmp "t0")).
  - reflexivity.
  - reflexivity.
  - reflexivity.
  - simpl. now left.
Defined.

(** X13. Two shapes only. Where objects are formatted, as on Python 2.7,
    when [parse] returns, every instruction is an ADD of two sources into a
    temporary or a STORE of one source into a register, and every source is
    a register or a temporary: no immediate operand and no other opcode is
    ever emitted, whatever the operators of the input. *)
Theorem only_add_and_store_are_emitted (py : python) (s : string) (g g' : nat)
        (tb : HexagonTranslationBuilder) (i : ReilInstruction) :
  objects py = FormatsStr ->
  parse py s g = (g', Returned (PyBuilder tb)) ->
  In i (get_instructions tb) ->
  emitted_shape i /\ Forall register_or_temporary (sources_of i).
Proof.
  destruct py as [wc f]. cbn [objects]. intros -> H Hin.
  destruct (parse_code wc _ _ _ _ H) as (tree & _ & E & _).
  pose proof (stmt_code_shape tree g) as F. rewrite <- E, Forall_forall in F. auto.
Qed.

Lemma only_add_and_store_are_emitted_witness :
  emitted_shape (mkInstr STR [Rtmp "t0"] (Rreg "Rd")) /\
  Forall register_or_temporary (sources_of (mkInstr STR [Rtmp "t0"] (Rreg "Rd"))).
Proof.
  apply (only_add_and_store_are_emitted Python2 "Rd=Rs+Rt;" 0 1 builder_Rd_Rs_Rt).
  - reflexivity.
  - reflexivity.
  - simpl. tauto.
Defined.

(** X14. Operator chains are grouped from the right. Where objects are
    formatted, as on Python 2.7, when [parse] returns, the first source of
    every ADD is a register of the input, never a temporary: in [a o b o c]
    the right-hand operation is emitted first and its temporary is the
    second source of the left-hand one, so the chain is read as
    [a o (b o c)] (no precedence is declared, and the parser shifts an
    operator rather than reduce the operation before it). *)
Theorem operator_chains_group_right (py : python) (s : string) (g g' : nat)
        (tb : HexagonTranslationBuilder) (i : ReilInstruction) :
  objects py = FormatsStr ->
  parse py s g = (g', Returned (PyBuilder tb)) ->
  In i (get_instructions tb) -> mnemonic_of i = ADD ->
  exists name y k, i = mkInstr ADD [Rreg name; y] (Rtmp (tmp_name k)).
Proof.
  destruct py as [wc f]. cbn [objects]. intros -> H Hin Hm.
  assert (emitted_shape i /\ Forall register_or_temporary (sources_of i))
    as [Hshape Hsrc].
  { destruct (parse_code wc _ _ _ _ H) as (tree & _ & E & _).
    pose proof (stmt_code_shape tree g) as F. rewrite <- E, Forall_forall in F. auto. }
  assert (Hleft : add_left_is_register i = true).
  { destruct tb as [l val]. unfold parse in H.
    destruct (tokenize_spec {| words := wc; objects := FormatsStr |} s)
      as (toks & e & Htok & [Htoks _]).
    rewrite Htok in H.
    pose proof (lr_parse_right wc e _ [] toks g g' l val I Htoks eq_refl H) as Hl.
    rewrite forallb_forall in Hl. auto. }
  destruct Hshape as [(x & y & k & ->)|(x & name & ->)]; [|discriminate Hm].
  cbn in Hsrc. inversion Hsrc as [|? ? Hx _]; subst.
  destruct Hx as [(name & ->)|(k' & ->)]; [|discriminate Hleft].
  now exists name, y, k.
Qed.

Lemma operator_chains_group_right_witness :
  parse Python2 "Ra-Rb-Rc;" 0 =
    (2, Returned (PyBuilder (mkTB
       [ mkInstr ADD [Rreg "Rb"; Rreg "Rc"] (Rtmp "t0");
         mkInstr ADD [Rreg "Ra"; Rtmp "t0"] (Rtmp "t1") ]
       (Some (Rtmp "t1"))))) /\
  exists name y k,
    mkInstr ADD [Rreg "Ra"; Rtmp "t0"] (Rtmp "t1") =
    mkInstr ADD [Rreg name; y] (Rtmp (tmp_name k)).
Proof.
  split; [reflexivity|].
  apply (operator_chains_group_right Python2 "Ra-Rb-Rc;" 0 2
           (mkTB [ mkInstr ADD [Rreg "Rb"; Rreg "Rc"] (Rtmp "t0");
                   mkInstr ADD [Rreg "Ra"; Rtmp "t0"] (Rtmp "t1") ]
                 (Some (Rtmp "t1")))).
  - reflexivity.
  - reflexivity.
  - simpl. tauto.
  - reflexivity.
Defined.

(** X18. The value of the result is the value of the first statement.
    Where objects are formatted, as on Python 2.7, whatever [parse] returns
    has its value set, so [get_value] on it does not raise. When the input
    starts with an assignment, the value is the builder of the register
    assigned to (a builder that holds no instruction, not an operand),
    whatever statements follow; otherwise it is an operand, the register or
    the temporary of the first statement. *)
Theorem result_value_is_of_the_first_statement (py : python) (s : string) (g g' : nat)
        (tb : HexagonTranslationBuilder) :
  objects py = FormatsStr ->
  parse py s g = (g', Returned (PyBuilder tb)) ->
  match starts_with_assignment (map atom_of (fst (tokenize py s))) with
  | Some rd => get_value tb g' = (g', Ok (VBuilder (mkTB [] (Some (Rreg rd)))))
  | None => exists o, get_value tb g' = (g', Ok (VOperand o))
  end.
Proof.
  destruct py as [wc f]. cbn [objects]. intros -> H.
  destruct (parse_tree wc _ _ _ _ H) as (tree & Hy & Ht).
  rewrite translate_stmt_value in Ht. injection Ht as _ <-.
  pose proof (stmt_value_head tree g [] (or_introl eq_refl)) as Hv.
  rewrite app_nil_r, Hy in Hv.
  destruct (starts_with_assignment _) as [rd|].
  - cbn. now rewrite Hv.
  - destruct Hv as (o & Hv). exists o. cbn. now rewrite Hv.
Qed.

Lemma result_value_is_of_the_first_statement_witness :
  get_value (mkTB [ mkInstr STR [Rreg "Rb"] (Rreg "Ra");
                    mkInstr ADD [Rreg "Rc"; Rreg "Rd"] (Rtmp "t0") ]
                  (Some (VBuilder (mkTB [] (Some (Rreg "Ra")))))) 1 =
    (1, Ok (VBuilder (mkTB [] (Some (Rreg "Ra"))))).
Proof.
  apply (result_value_is_of_the_first_statement Python2 "Ra=Rb;Rc+Rd" 0 1); reflexivity.
Defined.

(** ** Both interpreters *)

(** X15. A compound assignment is a plain store. Whatever the assignment
    operator, the action leaves in its builder the single instruction STORE
    of [rs] into [rd]: the operation the operator names is not emitted, the
    old value of [rd] is not read, and no temporary is allocated. On Python
    2.7 [parse] returns this builder, for the token sequence [rd a rs ;]
    with any register names and for the text "Rd" a "Rs;" of each of the
    ten operators. On Python 3 the debug message of the action raises
    [TypeError] and nothing is returned. *)
Theorem compound_assignment_is_a_store (a : assignop) (rd rs : string) (g : nat) :
  let toks := [tok_REG rd; mkTok a (PyStr (assignop_lexeme a)); tok_REG rs; tok_SEMI] in
  let text := "Rd" ++ assignop_lexeme a ++ "Rs;" in
  p_statementassign_builder (PyBuilder (mkTB [] (Some (Rreg rd))))
                            (PyBuilder (mkTB [] (Some (Rreg rs)))) g =
    (g, Ok (mkTB [mkInstr STR [Rreg rs] (Rreg rd)]
                 (Some (VBuilder (mkTB [] (Some (Rreg rd))))))) /\
  parse_tokens Python2 toks g =
    (g, Returned (PyBuilder (mkTB [mkInstr STR [Rreg rs] (Rreg rd)]
                                  (Some (VBuilder (mkTB [] (Some (Rreg rd)))))))) /\
  parse Python2 text g =
    (g, Returned (PyBuilder (mkTB [mkInstr STR [Rreg "Rs"] (Rreg "Rd")]
                                  (Some (VBuilder (mkTB [] (Some (Rreg "Rd")))))))) /\
  parse_tokens Python3 toks g = (g, Raised TypeError) /\
  parse Python3 text g = (g, Raised TypeError).
Proof. cbv zeta. destruct a; repeat split; reflexivity. Qed.

(** ** The driver *)

Lemma main_item_outcome (py : python) (behavior : string) (g : nat) :
  exists g' out status,
    main_item py behavior g = (g', out, status) /\ g <= g' /\
    (objects py = FormatsStr -> status = Finished) /\
    (objects py = RefusesSpec ->
     out = [] /\ (status = Finished \/ status = Crashed TypeError)) /\
    (py_in "Rd=Rs+Rt;" behavior = false -> g' = g /\ out = [] /\ status = Finished).
Proof.
  unfold main_item. destruct (py_in "Rd=Rs+Rt;" behavior) eqn:Hin; cbn [negb].
  - destruct (String.eqb behavior "").
    { exists g, [], Finished. repeat split; auto; discriminate. }
    pose proof (parse_counter py behavior g) as Hg.
    destruct (parse_total py behavior g) as [(Hf & l & val & E)|[(msg & E)|(Hf & E)]];
      destruct (parse py behavior g) as [g' o]; simpl in *; subst o;
      eexists _, _, _; (split; [reflexivity|]); (split; [assumption|]);
      repeat split; auto; try discriminate; congruence.
  - exists g, [], Finished. repeat split; auto.
Qed.

Lemma status_finished_dec (st : run_status) : st = Finished \/ st <> Finished.
Proof. destruct st; [left; reflexivity|right; discriminate..]. Qed.

Lemma main_item_Rd_Rs_Rt (py : python) (g : nat) :
  objects py = RefusesSpec ->
  main_item py "Rd=Rs+Rt;" g = (S g, [], Crashed TypeError).
Proof. destruct py as [[] f]; cbn [objects]; intros ->; reflexivity. Qed.

(** X16. How the loop of [__main__] ends, whatever the list of behaviors
    and the state of the name generator. Where objects are formatted, as on
    Python 2.7, it runs to its end: [parse] raises nothing but the
    [UnknownBehaviorException] that the loop catches, and what it returns
    always has the [_instructions] the loop prints. Where they are not, as
    on Python 3, it prints nothing, and it runs to its end or is left by a
    [TypeError]; it is left by a [TypeError] whenever some behavior is
    "Rd=Rs+Rt;". The counter of the name generator does not go back, and a
    list in which no behavior contains the text "Rd=Rs+Rt;" prints nothing
    and leaves the counter as it was. *)
Theorem main_loop_outcome (py : python) (inst_defs : list string) (g : nat) :
  exists g' out status,
    main py inst_defs g = (g', out, status) /\ g <= g' /\
    (objects py = FormatsStr -> status = Finished) /\
    (objects py = RefusesSpec ->
     out = [] /\ (status = Finished \/ status = Crashed TypeError) /\
     (In "Rd=Rs+Rt;" inst_defs -> status = Crashed TypeError)) /\
    (forallb (fun b => negb (py_in "Rd=Rs+Rt;" b)) inst_defs = true ->
     g' = g /\ out = [] /\ status = Finished).
Proof.
  revert g. induction inst_defs as [|b rest IH]; intros g.
  - exists g, [], Finished. repeat split; auto. intros [].
  - cbn [main forallb].
    destruct (main_item_outcome py b g) as (g1 & out1 & st1 & E1 & Hg1 & Hf1 & Hr1 & Hskip1).
    rewrite E1.
    destruct (IH g1) as (g2 & out2 & st2 & E2 & Hg2 & Hf2 & Hr2 & Hskip2).
    destruct (status_finished_dec st1) as [->|Hne].
    + rewrite E2.
      exists g2, (out1 ++ out2)%list, st2. split; [reflexivity|]. split; [lia|].
      split; [exact Hf2|]. split.
      * intros Hf. destruct (Hr1 Hf) as [-> _]. destruct (Hr2 Hf) as (-> & Hst & Hin).
        split; [reflexivity|]. split; [assumption|].
        intros [Hb|Hi]; [|auto].
        rewrite Hb, (main_item_Rd_Rs_Rt py g Hf) in E1. discriminate E1.
      * intros H. apply andb_true_iff in H as [Hb Hrest].
        apply negb_true_iff in Hb. destruct (Hskip1 Hb) as (-> & -> & _).
        destruct (Hskip2 Hrest) as (-> & -> & ->). auto.
    + exists g1, out1, st1. split; [destruct st1; congruence|]. split; [assumption|].
      split; [intros Hf; now apply Hf1 in Hf|]. split.
      * intros Hf. destruct (Hr1 Hf) as [-> [Hst|Hst]]; [contradiction|].
        repeat split; auto.
      * intros H. apply andb_true_iff in H as [Hb _].
        apply negb_true_iff in Hb. destruct (Hskip1 Hb) as (_ & _ & Hst).
        contradiction.
Qed.

(** ** The inputs that are accepted *)

(** X17. The inputs that are accepted. [parse] returns a builder exactly
    when objects are formatted, as on Python 2.7, the lexer reaches the end
    of the input, and the tokens are well formed: statements separated by
    one or more semicolons, with semicolons allowed at the end but not at
    the start, each statement a register, optionally followed by an
    assignment operator and a register, then by any number of binary
    operators each with its register. Every other input raises. So an
    assignment is no expression ([Ra=Rb=Rc] and [Ra+Rb=Rc] are rejected),
    the final semicolon is optional, and on Python 3 no input is
    accepted. *)
Theorem accepted_inputs (py : python) (s : string) (g : nat) :
  (exists g' tb, parse py s g = (g', Returned (PyBuilder tb))) <->
  (objects py = FormatsStr /\
   snd (tokenize py s) = LexEOF /\
   well_formed (map tok_type (fst (tokenize py s))) = true).
Proof.
  pose proof (parse_total py s g) as Htot.
  destruct (tokenize_spec py s) as (toks & e & Htok & [Htoks _]).
  assert (Hm : measure [] toks < parse_fuel toks)
    by (unfold measure, parse_fuel; simpl; lia).
  unfold parse in *. rewrite Htok in *. cbn [fst snd]. split.
  - intros (g' & tb & H). rewrite H in Htot. cbn [snd] in Htot.
    destruct Htot as [(Hf & _)|[(msg & E)|(_ & E)]]; try discriminate E.
    split; [assumption|].
    pose proof (lr_parse_ok py e _ [] toks g I Htoks Hm) as Hpost.
    rewrite H in Hpost. destruct Hpost as (-> & _). split; [reflexivity|].
    destruct py as [wc f]. cbn [objects] in Hf. subst f.
    pose proof (lr_parse_accepts wc _ [] toks g I Htoks Hm) as Hacc.
    rewrite H in Hacc. exact Hacc.
  - intros (Hf & -> & Hwf).
    destruct py as [wc f]. cbn [objects] in Hf. subst f.
    pose proof (lr_parse_accepts wc _ [] toks g I Htoks Hm) as Hacc.
    destruct (lr_parse {| words := wc; objects := FormatsStr |} (parse_fuel toks) []
                toks LexEOF g) as [g' o].
    cbn [snd objects] in *.
    destruct Htot as [(_ & l & val & ->)|[(msg & ->)|(Hf & _)]]; [eauto| |discriminate Hf].
    unfold well_formed in Hwf. unfold stack_accepts in Hacc. cbn in Hacc.
    rewrite Hwf in Hacc. discriminate Hacc.
Qed.

Lemma accepted_inputs_witness :
  exists g' tb, parse Python2 "Ra;;Rb=Rc" 0 = (g', Returned (PyBuilder tb)).
Proof. apply (accepted_inputs Python2 "Ra;;Rb=Rc" 0). repeat split; reflexivity. Defined.

(** X19. When the debug message is what stops [parse]. Where objects are
    not formatted, as on Python 3, [parse] raises [TypeError] exactly when
    the tokens of the input begin with a complete statement (a register,
    optionally an assignment operator and a register, then any number of
    binary operators each with its register) that is followed by a
    semicolon, or by the end of the input when the lexer reaches it. What
    comes after that semicolon is never read; every other input raises
    [UnknownBehaviorException]. *)
Theorem type_error_when_the_first_statement_ends (py : python) (s : string) (g : nat) :
  objects py = RefusesSpec ->
  (snd (parse py s g) = Raised TypeError <->
   first_statement_ends At_start (map tok_type (fst (tokenize py s)))
                        (is_eof (snd (tokenize py s))) = true) /\
  (snd (parse py s g) = Raised TypeError \/
   exists msg, snd (parse py s g) = Raised (UnknownBehaviorException msg)).
Proof.
  intros Hf. split.
  - destruct py as [wc f]. cbn [objects] in Hf. subst f. apply parse_ends.
  - destruct (parse_total py s g) as [(Hf' & _)|[H|(_ & H)]]; auto.
    rewrite Hf in Hf'. discriminate Hf'.
Qed.

Lemma type_error_when_the_first_statement_ends_witness :
  (snd (parse Python3 "Rd;@" 0) = Raised TypeError <->
   first_statement_ends At_start (map tok_type (fst (tokenize Python3 "Rd;@")))
                        (is_eof (snd (tokenize Python3 "Rd;@"))) = true) /\
  (snd (parse Python3 "Rd;@" 0) = Raised TypeError \/
   exists msg, snd (parse Python3 "Rd;@" 0) = Raised (UnknownBehaviorException msg)).
Proof.
  apply (type_error_when_the_first_statement_ends Python3 "Rd;@" 0). reflexivity.
Defined.
